(** * Interview practice server: question rotation, attempt ledger, analytics

    A shallow embedding of the request handlers of [server/server.js]:
    [GET /api/questions/:topic], [POST /api/attempts], [GET /api/attempts]
    and [GET /api/analytics].  The SQLite tables become lists of rows (row
    order and duplicate rows matter), each SQL statement becomes a list
    function, and each handler becomes a function from the database
    state to a response and a new database state.  The handler's nested
    callbacks are one sequential operation here: requests are executed one
    after the other.  A question request answers before its INSERTs are
    carried out; [get_questions] gives the database with them carried out,
    and [get_questions_queued] keeps them in a queue. *)

From Stdlib Require Import String Ascii List ZArith QArith Bool Arith Lia.
From Stdlib Require Import Permutation Sorted.
From Stdlib Require Qround Floats Uint63.
Import ListNotations.

Local Open Scope string_scope.
Local Open Scope list_scope.
Local Open Scope Z_scope.

(** ** JavaScript values and [parseInt] *)

Module JS.

(** The values a field of a parsed JSON body can have.  [Undefined] is an
    absent key.  JSON numbers are finite, so there is no NaN here.  An array
    or an object is kept with its [ToString] rendering only. *)
Inductive value : Type :=
| Undefined
| Null
| Bool (b : bool)
| Num (q : Q)
| Str (s : string)
| Obj (repr : string).

(** [!v] is [negb (truthy v)]. *)
Definition truthy (v : value) : bool :=
  match v with
  | Undefined => false
  | Null => false
  | Bool b => b
  | Num q => negb (Qeq_bool q 0)
  | Str s => negb (s =? EmptyString)%string
  | Obj _ => true
  end.

(** [v === undefined] *)
Definition is_undefined (v : value) : bool :=
  match v with
  | Undefined => true
  | _ => false
  end.

(** The result of [parseInt]: NaN or an integer-valued number. *)
Inductive number : Type :=
| NaN
| Int (z : Z).

(** White space stripped by [parseInt]: the white space and line
    terminator characters of one byte. *)
Definition is_space (c : ascii) : bool :=
  match nat_of_ascii c with
  | 9%nat | 10%nat | 11%nat | 12%nat | 13%nat | 32%nat => true
  | _ => false
  end.

(** A string holds the UTF-8 bytes of the text.  The white space of two
    bytes is U+00A0. *)
Definition is_space2 (c1 c2 : ascii) : bool :=
  (nat_of_ascii c1 =? 194)%nat && (nat_of_ascii c2 =? 160)%nat.

(** The white space and line terminators of three bytes: U+1680, U+2000 to
    U+200A, U+2028, U+2029, U+202F, U+205F, U+3000 and U+FEFF. *)
Definition is_space3 (c1 c2 c3 : ascii) : bool :=
  let a := nat_of_ascii c1 in
  let b := nat_of_ascii c2 in
  let c := nat_of_ascii c3 in
  ((a =? 225) && (b =? 154) && (c =? 128))%nat
  || ((a =? 226) && (b =? 128)
      && (((128 <=? c) && (c <=? 138)) || (c =? 168) || (c =? 169) || (c =? 175)))%nat
  || ((a =? 226) && (b =? 129) && (c =? 159))%nat
  || ((a =? 227) && (b =? 128) && (c =? 128))%nat
  || ((a =? 239) && (b =? 187) && (c =? 191))%nat.

Fixpoint skip_space (s : string) : string :=
  match s with
  | String c r =>
      if is_space c then skip_space r
      else
        match r with
        | String c2 r2 =>
            if is_space2 c c2 then skip_space r2
            else
              match r2 with
              | String c3 r3 => if is_space3 c c2 c3 then skip_space r3 else s
              | EmptyString => s
              end
        | EmptyString => s
        end
  | EmptyString => s
  end.

Definition digit_val (radix : Z) (c : ascii) : option Z :=
  let n := Z.of_nat (nat_of_ascii c) in
  let v :=
    if (48 <=? n) && (n <=? 57) then Some (n - 48)
    else if (97 <=? n) && (n <=? 122) then Some (n - 87)
    else if (65 <=? n) && (n <=? 90) then Some (n - 55)
    else None in
  match v with
  | Some d => if d <? radix then Some d else None
  | None => None
  end.

(** The value of the longest prefix of radix-[radix] digits; [acc] is [None]
    until a first digit has been read. *)
Fixpoint digits (radix : Z) (s : string) (acc : option Z) : option Z :=
  match s with
  | String c r =>
      match digit_val radix c with
      | Some d =>
          digits radix r
            (Some (match acc with Some a => a * radix + d | None => d end))
      | None => acc
      end
  | EmptyString => acc
  end.

(** Rounding of a mathematical integer to the nearest IEEE double (ties to
    even); integers below [2^53] in magnitude are exact. *)
Definition round_double (z : Z) : Z :=
  let a := Z.abs z in
  if a <? 2 ^ 53 then z
  else
    let e := Z.log2 a - 52 in
    let q := a / 2 ^ e in
    let r := a mod 2 ^ e in
    let half := 2 ^ (e - 1) in
    let q' :=
      if r <? half then q
      else if half <? r then q + 1
      else if Z.even q then q else q + 1 in
    Z.sgn z * (q' * 2 ^ e).

(** [parseInt(s)] with no radix argument. *)
Definition parseInt (s : string) : number :=
  let s1 := skip_space s in
  let '(sign, s2) :=
    match s1 with
    | String "-" r => (-1, r)
    | String "+" r => (1, r)
    | _ => (1, s1)
    end in
  let '(radix, s3) :=
    match s2 with
    | String "0" (String "x" r) => (16, r)
    | String "0" (String "X" r) => (16, r)
    | _ => (10, s2)
    end in
  match digits radix s3 None with
  | None => NaN
  | Some m => Int (round_double (sign * m))
  end.

End JS.

(** ** SQL values and the tables *)

(** A stored SQLite value.  INTEGER and REAL are both [SNum]. *)
Inductive sqlval : Type :=
| SNull
| SNum (q : Q)
| SText (s : string).

(** How node-sqlite3 binds a JavaScript value to a [?] parameter. *)
Definition bind (v : JS.value) : sqlval :=
  match v with
  | JS.Undefined => SNull
  | JS.Null => SNull
  | JS.Bool b => SNum (if b then 1%Q else 0%Q)
  | JS.Num q => SNum q
  | JS.Str s => SText s
  | JS.Obj repr => SText repr
  end.

(** Modelled from the spec: the table declarations are not part of the
    sources at hand; the columns are those of the logical layout
    [questions(topic, text, difficulty, id)],
    [question_usage(userId, questionId)] and
    [interview_attempts(id, userId, topic, score, totalQuestions,
    correctAnswers, durationMinutes, confidenceScore, facialExpressionScore,
    attemptDate)], named as the SQL statements name them.  No column
    constraint is applied on insertion. *)
Record Question : Type := mkQuestion {
  q_id : Z;
  q_topic : string;
  q_text : string;
  q_difficulty : string
}.

(** Modelled from the spec: a row of [question_usage(userId, questionId)];
    the table is a list, so the same pair can be stored twice. *)
Record Usage : Type := mkUsage {
  user_id : Z;
  question_id : Z
}.

(** Modelled from the spec: a row of [interview_attempts]; the columns
    that the insertion binds hold whatever value was bound. *)
Record Attempt : Type := mkAttempt {
  a_id : Z;
  a_user_id : Z;
  a_topic : sqlval;
  score : sqlval;
  total_questions : sqlval;
  correct_answers : sqlval;
  duration_minutes : sqlval;
  confidence_score : sqlval;
  facial_expression_score : sqlval;
  attempt_date : Z
}.

(** The database: the three tables, and the values that successive calls of
    SQLite's [RANDOM()] will return. *)
Record DB : Type := mkDB {
  questions : list Question;
  question_usage : list Usage;
  interview_attempts : list Attempt;
  random : nat -> Z
}.

(** A handler's response: the JSON payload, or [res.status(code).json({error})]. *)
Inductive Response (A : Type) : Type :=
| Ok (payload : A)
| Err (status : nat) (error : string).

Arguments Ok {A} payload.
Arguments Err {A} status error.

(** ** Generic SQL clauses *)

Section Clauses.

Context {A : Type}.

(** [ORDER BY key]: a stable insertion sort on the key, ascending. *)
Fixpoint insert_by (k : Z) (x : A) (l : list (Z * A)) : list (Z * A) :=
  match l with
  | [] => [(k, x)]
  | (k', y) :: l' =>
      if k' <=? k then (k', y) :: insert_by k x l' else (k, x) :: l
  end.

Fixpoint sort_by (l : list (Z * A)) : list (Z * A) :=
  match l with
  | [] => []
  | (k, x) :: l' => insert_by k x (sort_by l')
  end.

(** The rows paired with the values [RANDOM()] takes on them. *)
Fixpoint keyed (rnd : nat -> Z) (i : nat) (rows : list A) : list (Z * A) :=
  match rows with
  | [] => []
  | r :: rs => (rnd i, r) :: keyed rnd (S i) rs
  end.

(** [ORDER BY RANDOM()] *)
Definition order_by_random (rnd : nat -> Z) (rows : list A) : list A :=
  map snd (sort_by (keyed rnd 0 rows)).

(** [ORDER BY key DESC] *)
Definition order_by_desc (key : A -> Z) (rows : list A) : list A :=
  map snd (sort_by (map (fun r => (- key r, r)) rows)).

(** [LIMIT n]: a negative bound is no bound. *)
Definition limit (n : Z) (rows : list A) : list A :=
  if n <? 0 then rows else firstn (Z.to_nat n) rows.

End Clauses.

(** ** GET /api/questions/:topic *)

(** [SELECT COUNT(DISTINCT q.id) FROM questions q JOIN question_usage qu
    ON q.id = qu.question_id WHERE q.topic = ? AND qu.user_id = ?] *)
Definition used_join (user : Z) (topic : string) (db : DB) : list Z :=
  flat_map
    (fun q =>
       flat_map
         (fun qu =>
            if (q_id q =? question_id qu)
               && (q_topic q =? topic)%string
               && (user_id qu =? user)
            then [q_id q] else [])
         (question_usage db))
    (questions db).

Definition used_count (user : Z) (topic : string) (db : DB) : Z :=
  Z.of_nat (length (nodup Z.eq_dec (used_join user topic db))).

(** [SELECT * FROM questions WHERE topic = ?] *)
Definition catalog (topic : string) (db : DB) : list Question :=
  filter (fun q => (q_topic q =? topic)%string) (questions db).

(** [SELECT COUNT( * ) FROM questions WHERE topic = ?] *)
Definition total (topic : string) (db : DB) : Z :=
  Z.of_nat (length (catalog topic db)).

(** The row test of [DELETE FROM question_usage WHERE user_id = ? AND
    question_id IN (SELECT id FROM questions WHERE topic = ?)] *)
Definition in_reset_scope (user : Z) (topic : string) (db : DB) (qu : Usage) : bool :=
  (user_id qu =? user)
  && existsb (fun i => question_id qu =? i) (map q_id (catalog topic db)).

Definition reset_usage (user : Z) (topic : string) (db : DB) : DB :=
  mkDB (questions db)
       (filter (fun qu => negb (in_reset_scope user topic db qu)) (question_usage db))
       (interview_attempts db)
       (random db).

(** [SELECT qu.question_id FROM question_usage qu WHERE qu.user_id = ?] *)
Definition used_ids (user : Z) (db : DB) : list Z :=
  map question_id (filter (fun qu => user_id qu =? user) (question_usage db)).

(** [q.id IN (SELECT qu.question_id ...)] *)
Definition is_used (user : Z) (db : DB) (q : Question) : bool :=
  existsb (fun i => q_id q =? i) (used_ids user db).

(** The rows of the draw query before ordering: [q.topic = ? AND q.id NOT IN
    (...)]. *)
Definition eligible (user : Z) (topic : string) (db : DB) : list Question :=
  filter
    (fun q => (q_topic q =? topic)%string && negb (is_used user db q))
    (questions db).

(** [getRandomQuestions] once the [LIMIT] parameter is an integer: the draw
    query, then one [INSERT INTO question_usage] per returned row.  The
    database given back is the one in which these INSERTs have been carried
    out; the handler only queues them before it answers, which
    [get_questions_queued] below follows. *)
Definition getRandomQuestions (user : Z) (topic : string) (n : Z) (db : DB)
  : list Question * DB :=
  let rows := eligible user topic db in
  let drawn := limit n (order_by_random (random db) rows) in
  (drawn,
   mkDB (questions db)
        (question_usage db ++ map (fun q => mkUsage user (q_id q)) drawn)
        (interview_attempts db)
        (fun k => random db (k + length rows)%nat)).

(** The reset decision: [if (usedCount >= totalQuestions)]. *)
Definition check_reset (user : Z) (topic : string) (db : DB) : DB :=
  if total topic db <=? used_count user topic db
  then reset_usage user topic db
  else db.

(** The rotation selector on an integer count. *)
Definition selectQuestions (user : Z) (topic : string) (n : Z) (db : DB)
  : list Question * DB :=
  getRandomQuestions user topic n (check_reset user topic db).

(** [const { count = 5 } = req.query] followed by [parseInt(count)]. *)
Definition parse_count (count : option string) : JS.number :=
  match count with
  | None => JS.Int 5
  | Some s => JS.parseInt s
  end.

(** The value the [LIMIT ?] parameter takes.  NaN is bound as NULL, and
    SQLite refuses a [LIMIT] that is not losslessly a 64-bit integer: the
    statement then fails. *)
Definition limit_param (c : JS.number) : option Z :=
  match c with
  | JS.NaN => None
  | JS.Int z => if (- 2 ^ 63 <? z) && (z <? 2 ^ 63 - 1) then Some z else None
  end.

Definition get_questions (user : Z) (topic : string) (count : option string) (db : DB)
  : Response (list Question) * DB :=
  let db1 := check_reset user topic db in
  match limit_param (parse_count count) with
  | None => (Err 500 "Database error", db1)
  | Some n =>
      let '(drawn, db2) := getRandomQuestions user topic n db1 in
      (Ok drawn, db2)
  end.

(** ** POST /api/attempts *)

(** The fields the handler reads from [req.body]. *)
Record AttemptBody : Type := mkBody {
  topic : JS.value;
  b_score : JS.value;
  totalQuestions : JS.value;
  correctAnswers : JS.value;
  durationMinutes : JS.value;
  confidenceScore : JS.value;
  facialExpressionScore : JS.value
}.

(** [!topic || score === undefined || !totalQuestions ||
    correctAnswers === undefined] *)
Definition missing_required (b : AttemptBody) : bool :=
  negb (JS.truthy (topic b))
  || JS.is_undefined (b_score b)
  || negb (JS.truthy (totalQuestions b))
  || JS.is_undefined (correctAnswers b).

(** The rowid SQLite gives a new row: one more than the largest one. *)
Definition next_rowid (rows : list Attempt) : Z :=
  fold_right (fun a m => Z.max (a_id a) m) 0 rows + 1.

(** The row of the [INSERT INTO interview_attempts]; [id] and
    [attempt_date] are not among the inserted columns and are filled in by
    the database, the date from the time [now] of the insertion. *)
Definition attempt_row (user : Z) (b : AttemptBody) (now : Z) (db : DB) : Attempt :=
  mkAttempt (next_rowid (interview_attempts db)) user
            (bind (topic b)) (bind (b_score b))
            (bind (totalQuestions b)) (bind (correctAnswers b))
            (bind (durationMinutes b)) (bind (confidenceScore b))
            (bind (facialExpressionScore b)) now.

Record Saved : Type := mkSaved {
  id : Z;
  message : string
}.

Definition post_attempts (user : Z) (b : AttemptBody) (now : Z) (db : DB)
  : Response Saved * DB :=
  if missing_required b then (Err 400 "Missing required fields", db)
  else
    let row := attempt_row user b now db in
    (Ok (mkSaved (a_id row) "Attempt saved successfully"),
     mkDB (questions db) (question_usage db)
          (interview_attempts db ++ [row]) (random db)).

(** ** GET /api/attempts *)

(** [SELECT * FROM interview_attempts WHERE user_id = ?] *)
Definition attempts_of (user : Z) (db : DB) : list Attempt :=
  filter (fun a => a_user_id a =? user) (interview_attempts db).

(** [... ORDER BY attempt_date DESC] *)
Definition attempts_listing (user : Z) (db : DB) : list Attempt :=
  order_by_desc attempt_date (attempts_of user db).

Definition get_attempts (user : Z) (db : DB) : Response (list Attempt) :=
  Ok (attempts_listing user db).

(** ** GET /api/analytics *)

(** SQLite's order of values of different storage classes: NULL, then
    numbers, then text compared byte by byte. *)
Definition sql_ltb (a b : sqlval) : bool :=
  match a, b with
  | SNull, SNull => false
  | SNull, _ => true
  | SNum _, SNull => false
  | SNum x, SNum y => negb (Qle_bool y x)
  | SNum _, SText _ => true
  | SText _, SNull => false
  | SText _, SNum _ => false
  | SText s, SText t => String.ltb s t
  end.

(** Equality of grouping keys: NULLs are one group. *)
Definition sql_eqb (a b : sqlval) : bool :=
  match a, b with
  | SNull, SNull => true
  | SNum x, SNum y => Qeq_bool x y
  | SText s, SText t => (s =? t)%string
  | _, _ => false
  end.

Definition is_null (v : sqlval) : bool :=
  match v with
  | SNull => true
  | _ => false
  end.

(** [MAX(x)] and [MIN(x)]: NULL exactly when no value is non-NULL. *)
Definition sql_max (vs : list sqlval) : sqlval :=
  fold_left (fun m v => if is_null v then m else if sql_ltb m v then v else m) vs SNull.

Definition sql_min (vs : list sqlval) : sqlval :=
  fold_left
    (fun m v =>
       if is_null v then m
       else if is_null m then v
       else if sql_ltb v m then v else m)
    vs SNull.

Section Analytics.

(** SQLite's conversion of a text value to a number, used by [AVG] on a text
    value; it belongs to the storage engine. *)
Variable text_to_real : string -> Q.

Definition sql_real (v : sqlval) : Q :=
  match v with
  | SNull => 0%Q
  | SNum q => q
  | SText s => text_to_real s
  end.

(** [AVG(x)]: the mean of the non-NULL values, NULL when there is none. *)
Definition sql_avg (vs : list sqlval) : sqlval :=
  match filter (fun v => negb (is_null v)) vs with
  | [] => SNull
  | nn =>
      SNum (fold_left Qplus (map sql_real nn) 0%Q
            / inject_Z (Z.of_nat (length nn)))%Q
  end.

Record Overall : Type := mkOverall {
  total_attempts : Z;
  average_score : sqlval;
  best_score : sqlval;
  worst_score : sqlval;
  avg_duration : sqlval
}.

Record TopicStat : Type := mkTopicStat {
  ts_topic : sqlval;
  ts_attempts : Z;
  ts_avg_score : sqlval;
  ts_best_score : sqlval;
  ts_worst_score : sqlval
}.

Record Recent : Type := mkRecent {
  r_score : sqlval;
  r_attempt_date : Z;
  r_topic : sqlval;
  r_confidence_score : sqlval;
  r_facial_expression_score : sqlval
}.

Record Analytics : Type := mkAnalytics {
  overall : Overall;
  topicStats : list TopicStat;
  recentAttempts : list Recent
}.

(** [SELECT COUNT( * ), AVG(score), MAX(score), MIN(score),
    AVG(duration_minutes) FROM interview_attempts WHERE user_id = ?] *)
Definition overall_of (rows : list Attempt) : Overall :=
  mkOverall (Z.of_nat (length rows))
            (sql_avg (map score rows))
            (sql_max (map score rows))
            (sql_min (map score rows))
            (sql_avg (map duration_minutes rows)).

(** The keys of [GROUP BY topic], each once, in order of first occurrence
    (SQL leaves the order of the groups open). *)
Fixpoint group_keys (ks : list sqlval) : list sqlval :=
  match ks with
  | [] => []
  | k :: r => k :: filter (fun k' => negb (sql_eqb k k')) (group_keys r)
  end.

Definition topic_stat (rows : list Attempt) (k : sqlval) : TopicStat :=
  let g := filter (fun a => sql_eqb k (a_topic a)) rows in
  mkTopicStat k (Z.of_nat (length g))
              (sql_avg (map score g))
              (sql_max (map score g))
              (sql_min (map score g)).

Definition topic_stats_of (rows : list Attempt) : list TopicStat :=
  map (topic_stat rows) (group_keys (map a_topic rows)).

Definition recent_of (a : Attempt) : Recent :=
  mkRecent (score a) (attempt_date a) (a_topic a)
           (confidence_score a) (facial_expression_score a).

(** [... ORDER BY attempt_date DESC LIMIT 20] *)
Definition recent_attempts_of (rows : list Attempt) : list Recent :=
  map recent_of (limit 20 (order_by_desc attempt_date rows)).

(** The three queries, each with [WHERE user_id = ?]. *)
Definition analytics_of (user : Z) (db : DB) : Analytics :=
  let rows := attempts_of user db in
  mkAnalytics (overall_of rows) (topic_stats_of rows) (recent_attempts_of rows).

Definition get_analytics (user : Z) (db : DB) : Response Analytics :=
  Ok (analytics_of user db).

End Analytics.

(** ** Sequences of requests *)

(** A question request: the authenticated user, the path topic and the
    [count] query parameter when it is given. *)
Record Request : Type := mkRequest {
  req_user : Z;
  req_topic : string;
  req_count : option string
}.

(** The requests handled one after the other, each one after the INSERTs
    of the one before have been carried out. *)
Fixpoint run (reqs : list Request) (db : DB)
  : list (Response (list Question)) * DB :=
  match reqs with
  | [] => ([], db)
  | r :: rest =>
      let '(res, db1) := get_questions (req_user r) (req_topic r) (req_count r) db in
      let '(ress, db2) := run rest db1 in
      (res :: ress, db2)
  end.

(** [k] single-question requests of one user for one topic. *)
Definition single_draws (k : nat) (user : Z) (topic : string) : list Request :=
  repeat (mkRequest user topic (Some "1")) k.

(** The questions a list of responses delivered, in order. *)
Fixpoint delivered (ress : list (Response (list Question))) : list Question :=
  match ress with
  | [] => []
  | Ok qs :: rest => qs ++ delivered rest
  | Err _ _ :: rest => delivered rest
  end.

(** Modelled from the spec: [id] identifies a question, which belongs to
    exactly one topic; it is the primary key of [questions], so no two rows
    share an [id]. *)
Definition catalog_key (db : DB) : Prop :=
  NoDup (map q_id (questions db)).

(** The user has no usage row for a question of the topic. *)
Definition fresh_for (user : Z) (topic : string) (db : DB) : Prop :=
  forall qu, In qu (question_usage db) ->
    in_reset_scope user topic db qu = false.

(** ** Predicates of the statements *)

(** A validation error is a response with a 4xx status. *)
Definition is_validation_error {A : Type} (r : Response A) : bool :=
  match r with
  | Ok _ => false
  | Err status _ => (400 <=? status)%nat && (status <? 500)%nat
  end.

Definition rejected (user : Z) (b : AttemptBody) (now : Z) (db : DB) : Prop :=
  post_attempts user b now db = (Err 400 "Missing required fields", db).

(** The row that an accepted submission appends. *)
Definition accepted (user : Z) (b : AttemptBody) (now : Z) (db : DB) : Prop :=
  exists row,
    fst (post_attempts user b now db) = Ok (mkSaved (a_id row) "Attempt saved successfully")
    /\ interview_attempts (snd (post_attempts user b now db))
       = interview_attempts db ++ [row]
    /\ question_usage (snd (post_attempts user b now db)) = question_usage db
    /\ questions (snd (post_attempts user b now db)) = questions db
    /\ a_user_id row = user
    /\ a_topic row = bind (topic b)
    /\ score row = bind (b_score b)
    /\ total_questions row = bind (totalQuestions b)
    /\ correct_answers row = bind (correctAnswers b).

(** A field that is given and is not [null]. *)
Definition present (v : JS.value) : Prop :=
  v <> JS.Undefined /\ v <> JS.Null.

(** The table with other rows in place of the attempts. *)
Definition with_attempts (db : DB) (rows : list Attempt) : DB :=
  mkDB (questions db) (question_usage db) rows (random db).

(** ** Sample data *)

Module Sample.

Definition catalog_rows : list Question :=
  [mkQuestion 1 "js" "What is a closure?" "beginner";
   mkQuestion 2 "js" "What does typeof null give?" "beginner";
   mkQuestion 3 "js" "What is hoisting?" "beginner";
   mkQuestion 4 "py" "What is a list comprehension?" "beginner"].

Definition stream (k : nat) : Z := Z.of_nat ((k * 7 + 3) mod 5).

(** Nobody has drawn anything. *)
Definition db0 : DB := mkDB catalog_rows [] [] stream.

(** User 7 has drawn question 1. *)
Definition db_partial : DB := mkDB catalog_rows [mkUsage 7 1] [] stream.

(** User 7 has drawn the three questions of "js", user 8 one of them, and
    user 7 also the question of "py". *)
Definition db_full : DB :=
  mkDB catalog_rows
       [mkUsage 7 1; mkUsage 8 2; mkUsage 7 2; mkUsage 7 4; mkUsage 7 3] [] stream.

(** All required fields given, [totalQuestions] and [correctAnswers] 0. *)
Definition body_zero_total : AttemptBody :=
  mkBody (JS.Str "js") (JS.Num 7) (JS.Num 0) (JS.Num 0)
         JS.Undefined JS.Undefined JS.Undefined.

(** A session of five questions, none answered correctly. *)
Definition body_none_correct : AttemptBody :=
  mkBody (JS.Str "js") (JS.Num 0) (JS.Num 5) (JS.Num 0)
         (JS.Num 12) JS.Undefined JS.Undefined.

(** No [correctAnswers]. *)
Definition body_no_correct : AttemptBody :=
  mkBody (JS.Str "js") (JS.Num 7) (JS.Num 5) JS.Undefined
         JS.Undefined JS.Undefined JS.Undefined.

Definition body_empty_topic : AttemptBody :=
  mkBody (JS.Str EmptyString) (JS.Num 7) (JS.Num 5) (JS.Num 3)
         JS.Undefined JS.Undefined JS.Undefined.

Definition attempt_of_8 : Attempt :=
  mkAttempt 2 8 (SText "js") (SNum 9) (SNum 5) (SNum 4) SNull SNull SNull 200.

Definition attempts_of_7 : list Attempt :=
  [mkAttempt 1 7 (SText "js") (SNum 6) (SNum 5) (SNum 3) (SNum 10) SNull SNull 100;
   mkAttempt 3 7 (SText "py") (SNum 8) (SNum 5) (SNum 4) SNull SNull SNull 300].

Definition no_text (_ : string) : Q := 0%Q.

End Sample.

(** ** GET /api/topics *)

(** [ORDER BY topic] on text: insertion sort in the byte order of the
    strings. *)
Fixpoint insert_topic (t : string) (l : list string) : list string :=
  match l with
  | [] => [t]
  | x :: r => if String.leb t x then t :: l else x :: insert_topic t r
  end.

Fixpoint sort_topics (l : list string) : list string :=
  match l with
  | [] => []
  | t :: r => insert_topic t (sort_topics r)
  end.

(** [SELECT DISTINCT topic FROM questions ORDER BY topic], then
    [topics.map(t => t.topic)]. *)
Definition topic_names (db : DB) : list string :=
  sort_topics (nodup string_dec (map q_topic (questions db))).

Definition get_topics (db : DB) : Response (list string) :=
  Ok (topic_names db).

(** ** Authentication *)

(** [s.split(' ')]: the pieces of [s] between the spaces. *)
Fixpoint split_space (s : string) : list string :=
  match s with
  | EmptyString => [EmptyString]
  | String c r =>
      if Ascii.eqb c " " then EmptyString :: split_space r
      else
        match split_space r with
        | [] => [String c EmptyString]
        | p :: ps => String c p :: ps
        end
  end.

(** A string without a space. *)
Fixpoint no_space (s : string) : bool :=
  match s with
  | EmptyString => true
  | String c r => negb (Ascii.eqb c " ") && no_space r
  end.

(** [authHeader && authHeader.split(' ')[1]]; [None] is [undefined]. *)
Definition header_token (authorization : option string) : option string :=
  match authorization with
  | None => None
  | Some h =>
      if (h =? EmptyString)%string then Some EmptyString
      else nth_error (split_space h) 1
  end.

(** The payload of a token: [{ id, username }]. *)
Record Claims : Type := mkClaims {
  claim_id : Z;
  claim_username : JS.value
}.

(** A row of [users]: the columns that the statements name. *)
Record UserRow : Type := mkUser {
  u_id : Z;
  u_username : sqlval;
  u_password_hash : string;
  u_email : sqlval;
  u_created_at : Z
}.

(** What an [INSERT INTO users] can come to: the row is stored, or the
    statement fails with a message that includes "UNIQUE constraint failed",
    or it fails otherwise. *)
Inductive InsertOutcome : Type :=
| Inserted
| UniqueFailed
| OtherFailure.

(** The [user] object of the register and login responses. *)
Record AuthUser : Type := mkAuthUser {
  au_id : Z;
  au_username : JS.value;
  au_email : JS.value
}.

Record AuthResult : Type := mkAuthResult {
  token : string;
  auth_user : AuthUser
}.

(** The row of the profile query: [SELECT id, username, email, created_at]. *)
Record Profile : Type := mkProfile {
  p_id : Z;
  p_username : sqlval;
  p_email : sqlval;
  p_created_at : Z
}.

(** A stored value as the JavaScript value that a query returns. *)
Definition unbind (v : sqlval) : JS.value :=
  match v with
  | SNull => JS.Null
  | SNum q => JS.Num q
  | SText s => JS.Str s
  end.

(** [column = ?]: never true on NULL. *)
Definition sql_where_eqb (a b : sqlval) : bool :=
  negb (is_null a) && negb (is_null b) && sql_eqb a b.

(** The rowid of a new row of [users]. *)
Definition next_user_id (users : list UserRow) : Z :=
  fold_right (fun u m => Z.max (u_id u) m) 0 users + 1.

Section Auth.

(** [jwt.sign(payload, JWT_SECRET)] and [jwt.verify(token, JWT_SECRET)];
    [None] is a verification error. *)
Variable jwt_sign : Claims -> string.
Variable jwt_verify : string -> option Claims.

(** [bcrypt.hash(password, 10)] on a string, with the salt it draws, and
    [bcrypt.compare(password, hash)] on two strings. *)
Variable bcrypt_hash : string -> Z -> string.
Variable bcrypt_compare : string -> string -> bool.

(** The constraints of the table [users], whose declaration is not part of
    the sources: what the insertion of a username and an email comes to. *)
Variable users_insert : list UserRow -> sqlval -> sqlval -> InsertOutcome.

Definition authenticateToken (authorization : option string) : Response Claims :=
  match header_token authorization with
  | None => Err 401 "Access token required"
  | Some t =>
      if (t =? EmptyString)%string then Err 401 "Access token required"
      else
        match jwt_verify t with
        | None => Err 403 "Invalid token"
        | Some claims => Ok claims
        end
  end.

(** [POST /api/auth/register]; [salt] is what the hashing draws and [now]
    the time of the insertion.  bcryptjs refuses a password that is not a
    string, which the handler catches. *)
Definition register (username password email : JS.value) (salt now : Z)
           (users : list UserRow) : Response AuthResult * list UserRow :=
  if negb (JS.truthy username) || negb (JS.truthy password)
  then (Err 400 "Username and password are required", users)
  else
    match password with
    | JS.Str p =>
        let hashedPassword := bcrypt_hash p salt in
        match users_insert users (bind username) (bind email) with
        | UniqueFailed => (Err 400 "Username already exists", users)
        | OtherFailure => (Err 500 "Database error", users)
        | Inserted =>
            let lastID := next_user_id users in
            (Ok (mkAuthResult (jwt_sign (mkClaims lastID username))
                              (mkAuthUser lastID username email)),
             users ++ [mkUser lastID (bind username) hashedPassword (bind email) now])
        end
    | _ => (Err 500 "Server error", users)
    end.

(** [SELECT * FROM users WHERE username = ?], first row. *)
Definition user_by_name (username : sqlval) (users : list UserRow) : option UserRow :=
  find (fun u => sql_where_eqb (u_username u) username) users.

(** [POST /api/auth/login] *)
Definition login (username password : JS.value) (users : list UserRow)
  : Response AuthResult :=
  if negb (JS.truthy username) || negb (JS.truthy password)
  then Err 400 "Username and password are required"
  else
    match user_by_name (bind username) users with
    | None => Err 401 "Invalid credentials"
    | Some u =>
        match password with
        | JS.Str p =>
            if bcrypt_compare p (u_password_hash u)
            then Ok (mkAuthResult
                       (jwt_sign (mkClaims (u_id u) (unbind (u_username u))))
                       (mkAuthUser (u_id u) (unbind (u_username u))
                                   (unbind (u_email u))))
            else Err 401 "Invalid credentials"
        | _ => Err 500 "Server error"
        end
    end.

(** [GET /api/profile] *)
Definition get_profile (authorization : option string) (users : list UserRow)
  : Response Profile :=
  match authenticateToken authorization with
  | Err status error => Err status error
  | Ok claims =>
      match find (fun u => u_id u =? claim_id claims) users with
      | None => Err 404 "User not found"
      | Some u => Ok (mkProfile (u_id u) (u_username u) (u_email u) (u_created_at u))
      end
  end.

(** A handler behind [authenticateToken]: it runs for [req.user.id] when the
    token is accepted, and not at all otherwise. *)
Definition authenticated {A : Type} (authorization : option string)
           (handler : Z -> DB -> Response A * DB) (db : DB) : Response A * DB :=
  match authenticateToken authorization with
  | Err status error => (Err status error, db)
  | Ok claims => handler (claim_id claims) db
  end.

End Auth.

(** ** The client's token *)

(** [ApiService]: the [token] field and the [authToken] entry of the
    browser's local storage; [None] is [null]. *)
Record TokenStore : Type := mkTokenStore {
  token_field : option string;
  local_storage : option string
}.

Definition setToken (t : string) (s : TokenStore) : TokenStore :=
  mkTokenStore (Some t) (Some t).

(** [!this.token] *)
Definition no_token (t : option string) : bool :=
  match t with
  | None => true
  | Some s => (s =? EmptyString)%string
  end.

Definition getToken (s : TokenStore) : option string * TokenStore :=
  if no_token (token_field s)
  then (local_storage s, mkTokenStore (local_storage s) (local_storage s))
  else (token_field s, s).

Definition clearToken (s : TokenStore) : TokenStore :=
  mkTokenStore None None.

(** The [Authorization] header that [request] sends:
    [...(token && { Authorization: `Bearer ${token}` })]. *)
Definition authorization_header (s : TokenStore) : option string :=
  match fst (getToken s) with
  | None => None
  | Some t =>
      if (t =? EmptyString)%string then None
      else Some (String.append "Bearer " t)
  end.

(** What the client does to its token: [login] and [register] call
    [setToken] when the response has a truthy token, [logout] calls
    [clearToken], and every request calls [getToken]. *)
Inductive ClientStep : Type :=
| StepLoggedIn (response_token : option string)
| StepLogout
| StepRequest.

Definition client_step (st : ClientStep) (s : TokenStore) : TokenStore :=
  match st with
  | StepLoggedIn t =>
      let s1 := snd (getToken s) in
      match t with
      | Some tok => if (tok =? EmptyString)%string then s1 else setToken tok s1
      | None => s1
      end
  | StepLogout => clearToken s
  | StepRequest => snd (getToken s)
  end.

Definition client_steps (sts : list ClientStep) (s : TokenStore) : TokenStore :=
  fold_left (fun s st => client_step st s) sts s.

(** ** The client's report of a session *)

(** The exact value of a double; [None] for NaN and the infinities. *)
Definition Q_of_float (f : PrimFloat.float) : option Q :=
  match FloatOps.Prim2SF f with
  | SpecFloat.S754_zero _ => Some 0%Q
  | SpecFloat.S754_finite s m e =>
      let mag :=
        if 0 <=? e then inject_Z (Z.pos m * 2 ^ e)
        else (inject_Z (Z.pos m) / inject_Z (2 ^ (- e)))%Q in
      Some (if s then (- mag)%Q else mag)
  | SpecFloat.S754_infinity _ => None
  | SpecFloat.S754_nan => None
  end.

(** A number as the server reads it from the JSON text: [JSON.stringify]
    writes NaN and the infinities as [null]. *)
Definition json_number (f : PrimFloat.float) : JS.value :=
  match Q_of_float f with
  | Some q => JS.Num q
  | None => JS.Null
  end.

(** [Math.round]: the nearest integer, a tie going up; NaN and the
    infinities are kept, and reach the server as [null]. *)
Definition json_round (f : PrimFloat.float) : JS.value :=
  match Q_of_float f with
  | Some q => JS.Num (inject_Z (Qround.Qfloor (q + (1 # 2))))
  | None => JS.Null
  end.

(** The length of an array as a number; array lengths are below [2^32]. *)
Definition float_of_length (n : nat) : PrimFloat.float :=
  PrimFloat.of_uint63 (Uint63.of_Z (Z.of_nat n)).

(** The argument of [saveInterviewSession], with the number of elements of
    [questions]; [answers] and [mode] do not reach a column. *)
Record Session : Type := mkSession {
  s_topic : string;
  s_questions : nat;
  s_startTime : PrimFloat.float;
  s_endTime : PrimFloat.float;
  s_averageScore : PrimFloat.float
}.

(** The body that [saveInterviewSession] posts, as the server parses it. *)
Definition session_attempt (s : Session) : AttemptBody :=
  mkBody (JS.Str (s_topic s))
         (json_number (s_averageScore s))
         (JS.Num (inject_Z (Z.of_nat (s_questions s))))
         (json_round
            (PrimFloat.mul
               (PrimFloat.div (s_averageScore s) (PrimFloat.of_uint63 (Uint63.of_Z 10)))
               (float_of_length (s_questions s))))
         (json_round
            (PrimFloat.div
               (PrimFloat.sub (s_endTime s) (s_startTime s))
               (PrimFloat.mul (PrimFloat.of_uint63 (Uint63.of_Z 1000))
                              (PrimFloat.of_uint63 (Uint63.of_Z 60)))))
         JS.Undefined JS.Undefined.

Section SaveSession.

Variable jwt_verify : string -> option Claims.

(** [saveInterviewSession] against the server: the request carries the
    client's token, and [POST /api/attempts] runs behind the
    authentication, on a body that the JSON middleware lets through. *)
Definition saveInterviewSession (store : TokenStore) (s : Session) (now : Z) (db : DB)
  : Response Saved * DB :=
  authenticated jwt_verify (authorization_header store)
                (fun uid db => post_attempts uid (session_attempt s) now db) db.

End SaveSession.

(** ** The screens of the application *)

(** [App]: the three pieces of state.  A [Topic] is kept by its [id]; the
    results are given as they are, [None] standing for a falsy value. *)
Inductive AppScreen : Type :=
| ScreenTopics
| ScreenInterview
| ScreenResults.

Record AppState : Type := mkApp {
  currentScreen : AppScreen;
  selectedTopic : option string;
  interviewResults : option string
}.

Definition app_initial : AppState := mkApp ScreenTopics None None.

(** The five handlers. *)
Inductive AppEvent : Type :=
| TopicSelect (topic : string)
| InterviewComplete (results : option string)
| StartNew
| BackToTopics
| BackFromInterview.

Definition app_handle (e : AppEvent) (s : AppState) : AppState :=
  match e with
  | TopicSelect t => mkApp ScreenInterview (Some t) (interviewResults s)
  | InterviewComplete r => mkApp ScreenResults (selectedTopic s) r
  | StartNew =>
      match selectedTopic s with
      | Some _ => mkApp ScreenInterview (selectedTopic s) None
      | None => s
      end
  | BackToTopics => mkApp ScreenTopics None None
  | BackFromInterview => mkApp ScreenTopics None (interviewResults s)
  end.

(** The component that [App] renders. *)
Inductive AppView : Type :=
| ViewTopicSelection
| ViewInterview (topic : string)
| ViewResults (results : string).

Definition app_view (s : AppState) : AppView :=
  match currentScreen s with
  | ScreenInterview =>
      match selectedTopic s with
      | Some t => ViewInterview t
      | None => ViewTopicSelection
      end
  | ScreenResults =>
      match interviewResults s with
      | Some r => ViewResults r
      | None => ViewTopicSelection
      end
  | ScreenTopics => ViewTopicSelection
  end.

(** ** The fallback analysis of an answer *)

Record AnalysisResult : Type := mkAnalysis {
  an_score : Z;
  an_feedback : string;
  an_strengths : list string;
  an_improvements : list string;
  an_keyPoints : list string
}.

(** [getFallbackAnalysis]; the length of the answer is its number of
    characters, the answer being in ASCII. *)
Definition getFallbackAnalysis (answer : string) : AnalysisResult :=
  let answerLength := Z.of_nat (String.length answer) in
  let score := 5 in
  let score := if 200 <? answerLength then score + 1 else score in
  let score := if 500 <? answerLength then score + 1 else score in
  let score := if answerLength <? 50 then score - 2 else score in
  let score := Z.min 10 (Z.max 1 score) in
  mkAnalysis score
    "AI analysis is temporarily unavailable. Your answer has been recorded with basic scoring."
    ["Provided a response"; "Attempted to answer the question"]
    ["Connect to internet for AI analysis"; "Try again for detailed feedback"]
    ["Technical communication"; "Problem-solving approach"; "Practical knowledge"].

(** ** Sample users, tokens and sessions *)

Module Fixture.

Definition users0 : list UserRow :=
  [mkUser 1 (SText "ann") "h:pw-ann" SNull 10;
   mkUser 2 (SText "cat") "h:pw-cat" (SText "cat@example.org") 20].

(** Stand-ins for the two libraries and for the table's constraint. *)
Definition hash (p : string) (salt : Z) : string := String.append "h:" p.

Definition compare (p h : string) : bool := (h =? String.append "h:" p)%string.

Definition insert (users : list UserRow) (username email : sqlval) : InsertOutcome :=
  if existsb (fun u => sql_where_eqb (u_username u) username) users
  then UniqueFailed else Inserted.

Definition sign (c : Claims) : string :=
  if claim_id c =? 1 then "tok1" else if claim_id c =? 3 then "tok3" else "tok".

Definition verify (t : string) : option Claims :=
  if (t =? "tok1")%string then Some (mkClaims 1 (JS.Str "ann"))
  else if (t =? "tok3")%string then Some (mkClaims 3 (JS.Str "bob"))
  else None.

Definition bob_registered : AuthResult :=
  mkAuthResult "tok3" (mkAuthUser 3 (JS.Str "bob") JS.Undefined).

Definition ann_store : TokenStore := mkTokenStore (Some "tok1") (Some "tok1").

(** Four questions, ten minutes, an average score of 7.5. *)
Definition session4 : Session :=
  mkSession "js" 4
            (PrimFloat.of_uint63 (Uint63.of_Z 0))
            (PrimFloat.of_uint63 (Uint63.of_Z 600000))
            (PrimFloat.div (PrimFloat.of_uint63 (Uint63.of_Z 15))
                           (PrimFloat.of_uint63 (Uint63.of_Z 2))).

Definition q2 : Question := mkQuestion 2 "js" "What does typeof null give?" "beginner".
Definition q3 : Question := mkQuestion 3 "js" "What is hoisting?" "beginner".

End Fixture.

(** ** The INSERTs that a request leaves behind *)

(** [insertUsage.run] queues an INSERT and [res.json] is called without
    waiting for it: when a request is answered its INSERTs are still to be
    carried out, which happens in order while the next requests are being
    handled.  [queued] holds the INSERTs that are still to be carried
    out. *)
Record Queued : Type := mkQueued {
  stored : DB;
  queued : list Usage
}.

(** The first [k] queued INSERTs are carried out. *)
Definition carry_out (k : nat) (s : Queued) : Queued :=
  mkQueued
    (mkDB (questions (stored s))
          (question_usage (stored s) ++ firstn k (queued s))
          (interview_attempts (stored s))
          (random (stored s)))
    (skipn k (queued s)).

(** All of them are. *)
Definition settle (s : Queued) : Queued :=
  carry_out (length (queued s)) s.

(** How many of the queued INSERTs are carried out before the request counts
    the used questions, then before it takes the reset decision, then
    before it draws. *)
Record Timing : Type := mkTiming {
  before_count : nat;
  before_reset : nat;
  before_draw : nat
}.

(** The handler of [GET /api/questions/:topic] with its INSERTs queued. *)
Definition get_questions_queued (user : Z) (topic : string) (count : option string)
           (t : Timing) (s : Queued) : Response (list Question) * Queued :=
  let s1 := carry_out (before_count t) s in
  let usedCount := used_count user topic (stored s1) in
  let totalQuestions := total topic (stored s1) in
  let s2 := carry_out (before_reset t) s1 in
  let s3 :=
    carry_out (before_draw t)
      (mkQueued (if totalQuestions <=? usedCount
                 then reset_usage user topic (stored s2)
                 else stored s2)
                (queued s2)) in
  match limit_param (parse_count count) with
  | None => (Err 500 "Database error", s3)
  | Some n =>
      let rows := eligible user topic (stored s3) in
      let drawn := limit n (order_by_random (random (stored s3)) rows) in
      (Ok drawn,
       mkQueued
         (mkDB (questions (stored s3)) (question_usage (stored s3))
               (interview_attempts (stored s3))
               (fun k => random (stored s3) (k + length rows)%nat))
         (queued s3 ++ map (fun q => mkUsage user (q_id q)) drawn))
  end.

(** The requests handled one after the other, each with its timing. *)
Fixpoint run_queued (reqs : list (Request * Timing)) (s : Queued)
  : list (Response (list Question)) * Queued :=
  match reqs with
  | [] => ([], s)
  | (r, t) :: rest =>
      let '(res, s1) :=
        get_questions_queued (req_user r) (req_topic r) (req_count r) t s in
      let '(ress, s2) := run_queued rest s1 in
      (res :: ress, s2)
  end.

(** The rows of a ledger that hold the pair of [a]. *)
Definition same_pair (a b : Usage) : bool :=
  (user_id a =? user_id b) && (question_id a =? question_id b).

(** A topic of forty questions, nothing drawn. *)
Module Bank.

Definition rows40 : list Question :=
  map (fun i => mkQuestion (Z.of_nat i) "js" "Question" "beginner") (seq 1 40).

Definition stream (k : nat) : Z := Z.of_nat ((k * 29 + 11) mod 101).

Definition db40 : DB := mkDB rows40 [] [] stream.

(** A request for thirty questions and, once it is answered, one for ten,
    which counts and draws when twenty-five of the thirty INSERTs have been
    carried out. *)
Definition thirty_then_ten : list (Request * Timing) :=
  [(mkRequest 7 "js" (Some "30"), mkTiming 0 0 0);
   (mkRequest 7 "js" (Some "10"), mkTiming 25 0 0)].

End Bank.

(** * Properties *)

(** ** The SQL clauses *)

Section ClauseFacts.

Context {A : Type}.

Lemma insert_by_perm (k : Z) (x : A) (l : list (Z * A)) :
  Permutation (insert_by k x l) ((k, x) :: l).
Proof.
  induction l as [|[k' y] l IH]; simpl.
  - apply Permutation_refl.
  - destruct (k' <=? k).
    + eapply perm_trans; [apply perm_skip, IH | apply perm_swap].
    + apply Permutation_refl.
Qed.

Lemma sort_by_perm (l : list (Z * A)) : Permutation (sort_by l) l.
Proof.
  induction l as [|[k x] l IH]; simpl.
  - apply perm_nil.
  - eapply perm_trans; [apply insert_by_perm | apply perm_skip, IH].
Qed.

Lemma keyed_rows (rnd : nat -> Z) (rows : list A) :
  forall i, map snd (keyed rnd i rows) = rows.
Proof.
  induction rows as [|r rs IH]; intros i; simpl.
  - reflexivity.
  - now rewrite IH.
Qed.

Lemma order_by_random_perm (rnd : nat -> Z) (rows : list A) :
  Permutation (order_by_random rnd rows) rows.
Proof.
  unfold order_by_random.
  rewrite <- (keyed_rows rnd rows 0%nat) at 2.
  apply Permutation_map, sort_by_perm.
Qed.

Lemma order_by_desc_perm (key : A -> Z) (rows : list A) :
  Permutation (order_by_desc key rows) rows.
Proof.
  unfold order_by_desc.
  eapply perm_trans; [apply Permutation_map, sort_by_perm|].
  rewrite map_map; simpl. rewrite map_id. apply Permutation_refl.
Qed.

Lemma insert_by_sorted (k : Z) (x : A) (l : list (Z * A)) :
  Sorted (fun p q => fst p <= fst q) l ->
  Sorted (fun p q => fst p <= fst q) (insert_by k x l).
Proof.
  induction l as [|[k' y] l IH]; simpl; intros H.
  - repeat constructor.
  - apply Sorted_inv in H as [Hs Hh].
    destruct (Z.leb_spec k' k) as [Hle|Hlt].
    + constructor; [now apply IH|].
      destruct l as [|[k2 z] l]; simpl.
      * constructor. exact Hle.
      * apply HdRel_inv in Hh. destruct (k2 <=? k); constructor; assumption.
    + constructor.
      * now constructor.
      * constructor. simpl. lia.
Qed.

Lemma sort_by_sorted (l : list (Z * A)) :
  Sorted (fun p q => fst p <= fst q) (sort_by l).
Proof.
  induction l as [|[k x] l IH]; simpl.
  - constructor.
  - now apply insert_by_sorted.
Qed.

(** [ORDER BY key DESC] gives the rows with the key going down. *)
Lemma order_by_desc_sorted (key : A -> Z) (rows : list A) :
  Sorted (fun a b => key b <= key a) (order_by_desc key rows).
Proof.
  unfold order_by_desc.
  assert (forall p, In p (sort_by (map (fun r => (- key r, r)) rows)) ->
                    fst p = - key (snd p)) as Hk.
  { intros p Hp. apply (Permutation_in _ (sort_by_perm _)) in Hp.
    apply in_map_iff in Hp as (r & <- & _). reflexivity. }
  pose proof (sort_by_sorted (map (fun r => (- key r, r)) rows)) as Hs.
  induction (sort_by (map (fun r => (- key r, r)) rows)) as [|p l IH]; simpl.
  - constructor.
  - apply Sorted_inv in Hs as [Hs Hh]. constructor.
    + apply IH; [|exact Hs]. intros q Hq. apply Hk. now right.
    + destruct l as [|q l]; simpl; constructor.
      apply HdRel_inv in Hh.
      rewrite (Hk p (or_introl eq_refl)) in Hh.
      rewrite (Hk q (or_intror (or_introl eq_refl))) in Hh. lia.
Qed.

Lemma limit_split (n : Z) (rows : list A) :
  exists rest, rows = limit n rows ++ rest.
Proof.
  unfold limit. destruct (n <? 0).
  - exists []. now rewrite app_nil_r.
  - exists (skipn (Z.to_nat n) rows). now rewrite firstn_skipn.
Qed.

Lemma limit_In (n : Z) (rows : list A) (x : A) :
  In x (limit n rows) -> In x rows.
Proof.
  destruct (limit_split n rows) as [rest E]. intros H.
  rewrite E. apply in_or_app. now left.
Qed.

Lemma limit_NoDup (n : Z) (rows : list A) :
  NoDup rows -> NoDup (limit n rows).
Proof.
  destruct (limit_split n rows) as [rest E]. intros H.
  rewrite E in H. now apply NoDup_app_remove_r in H.
Qed.

Lemma limit_length (n : Z) (rows : list A) :
  0 <= n -> length (limit n rows) = Nat.min (Z.to_nat n) (length rows).
Proof.
  intros Hn. unfold limit.
  destruct (Z.ltb_spec n 0); [lia|]. apply length_firstn.
Qed.

Lemma limit_length_le (n : Z) (rows : list A) :
  (length (limit n rows) <= length rows)%nat.
Proof.
  destruct (limit_split n rows) as [rest E].
  rewrite E at 2. rewrite length_app. lia.
Qed.

End ClauseFacts.

(** ** Lists with a key *)

Section KeyFacts.

Context {A : Type} (key : A -> Z).

Lemma NoDup_key_filter (p : A -> bool) (l : list A) :
  NoDup (map key l) -> NoDup (map key (filter p l)).
Proof.
  induction l as [|a l IH]; simpl; intros H.
  - constructor.
  - inversion H as [|? ? Hn Hd]; subst.
    destruct (p a); simpl; [|now apply IH].
    constructor; [|now apply IH].
    intros Hin. apply Hn.
    apply in_map_iff in Hin as (b & Hb & Hin).
    apply filter_In in Hin as [Hin _].
    apply in_map_iff. now exists b.
Qed.

Lemma NoDup_key_perm (l l' : list A) :
  Permutation l l' -> NoDup (map key l') -> NoDup (map key l).
Proof.
  intros HP H.
  eapply Permutation_NoDup; [|exact H].
  apply Permutation_map, Permutation_sym, HP.
Qed.

Lemma key_inj (l : list A) (x y : A) :
  NoDup (map key l) -> In x l -> In y l -> key x = key y -> x = y.
Proof.
  induction l as [|a l IH]; simpl; intros H Hx Hy E; [contradiction|].
  inversion H as [|? ? Hn Hd]; subst.
  destruct Hx as [->|Hx], Hy as [->|Hy]; auto.
  - exfalso. apply Hn. rewrite E. now apply in_map.
  - exfalso. apply Hn. rewrite <- E. now apply in_map.
Qed.

(** Taking one row out of a keyed list by its key. *)
Lemma filter_key_out (l : list A) (x : A) :
  NoDup (map key l) -> In x l ->
  Permutation l (x :: filter (fun y => negb (key y =? key x)) l).
Proof.
  induction l as [|a l IH]; simpl; intros H Hx; [contradiction|].
  inversion H as [|? ? Hn Hd]; subst.
  destruct Hx as [->|Hx].
  - rewrite Z.eqb_refl; simpl. apply perm_skip.
    rewrite forallb_filter_id; [apply Permutation_refl|].
    apply forallb_forall. intros y Hy.
    destruct (Z.eqb_spec (key y) (key x)) as [E|]; [|reflexivity].
    exfalso. apply Hn. rewrite <- E. now apply in_map.
  - destruct (Z.eqb_spec (key a) (key x)) as [E|NE]; simpl.
    + exfalso. apply Hn. rewrite E. now apply in_map.
    + eapply perm_trans; [apply perm_skip, IH; assumption | apply perm_swap].
Qed.

Lemma filter_split_length (p q : A -> bool) (l : list A) :
  length (filter p l)
  = (length (filter (fun x => p x && q x) l)
     + length (filter (fun x => p x && negb (q x)) l))%nat.
Proof.
  induction l as [|a l IH]; simpl; [reflexivity|].
  destruct (p a), (q a); simpl; lia.
Qed.

End KeyFacts.

(** ** The usage ledger and the catalog *)

Lemma is_used_iff (user : Z) (db : DB) (q : Question) :
  is_used user db q = true <->
  exists qu, In qu (question_usage db) /\ user_id qu = user /\ question_id qu = q_id q.
Proof.
  unfold is_used, used_ids. rewrite existsb_exists. split.
  - intros (i & Hi & E). apply Z.eqb_eq in E.
    apply in_map_iff in Hi as (qu & Hq & Hin).
    apply filter_In in Hin as [Hin Hu]. apply Z.eqb_eq in Hu.
    exists qu. repeat split; congruence.
  - intros (qu & Hin & Hu & Hq). exists (question_id qu). split.
    + apply in_map, filter_In. split; [assumption|]. now apply Z.eqb_eq.
    + now apply Z.eqb_eq.
Qed.

Lemma in_reset_scope_iff (user : Z) (topic : string) (db : DB) (qu : Usage) :
  in_reset_scope user topic db qu = true <->
  user_id qu = user /\ exists q, In q (catalog topic db) /\ q_id q = question_id qu.
Proof.
  unfold in_reset_scope. rewrite andb_true_iff, Z.eqb_eq, existsb_exists.
  split.
  - intros [Hu (i & Hi & E)]. apply Z.eqb_eq in E. split; [assumption|].
    apply in_map_iff in Hi as (q & Hq & Hin). exists q. split; congruence.
  - intros [Hu (q & Hin & Hq)]. split; [assumption|].
    exists (q_id q). split; [now apply in_map | now apply Z.eqb_eq].
Qed.

Lemma in_catalog (topic : string) (db : DB) (q : Question) :
  In q (catalog topic db) <-> In q (questions db) /\ q_topic q = topic.
Proof.
  unfold catalog. rewrite filter_In. now rewrite String.eqb_eq.
Qed.

Lemma in_used_join (user : Z) (topic : string) (db : DB) (x : Z) :
  In x (used_join user topic db) <->
  exists q, In q (questions db) /\ q_id q = x /\ q_topic q = topic
            /\ is_used user db q = true.
Proof.
  unfold used_join. rewrite in_flat_map. split.
  - intros (q & Hq & Hx). apply in_flat_map in Hx as (qu & Hqu & Hx).
    destruct (Z.eqb_spec (q_id q) (question_id qu)) as [E1|]; simpl in Hx; [|contradiction].
    destruct (String.eqb_spec (q_topic q) topic) as [E2|]; simpl in Hx; [|contradiction].
    destruct (Z.eqb_spec (user_id qu) user) as [E3|]; simpl in Hx; [|contradiction].
    destruct Hx as [<-|[]]. exists q. repeat split; try assumption.
    apply is_used_iff. exists qu. repeat split; congruence.
  - intros (q & Hq & Hx & Ht & Hu).
    apply is_used_iff in Hu as (qu & Hqu & Hu & Hi).
    exists q. split; [assumption|]. apply in_flat_map. exists qu. split; [assumption|].
    rewrite Hi, Z.eqb_refl, Ht, String.eqb_refl, Hu, Z.eqb_refl. simpl. now left.
Qed.

(** With the primary key, the distinct count of the join is the number of
    the topic's questions that the user's ledger holds. *)
Lemma used_count_spec (user : Z) (topic : string) (db : DB) :
  catalog_key db ->
  used_count user topic db
  = Z.of_nat (length (filter (fun q => (q_topic q =? topic)%string && is_used user db q)
                             (questions db))).
Proof.
  intros Hk. unfold used_count. f_equal.
  rewrite <- (length_map q_id (filter _ (questions db))).
  apply Permutation_length, NoDup_Permutation.
  - apply NoDup_nodup.
  - now apply NoDup_key_filter.
  - intros x. rewrite nodup_In, in_used_join, in_map_iff. split.
    + intros (q & Hq & Hx & Ht & Hu). exists q. split; [assumption|].
      apply filter_In. split; [assumption|].
      rewrite Hu, andb_true_r. now apply String.eqb_eq.
    + intros (q & Hx & Hin). apply filter_In in Hin as [Hq Hp].
      apply andb_true_iff in Hp as [Ht Hu]. apply String.eqb_eq in Ht.
      exists q. now repeat split.
Qed.

(** The cycle progress and what is left of the cycle add up to the catalog. *)
Lemma total_split (user : Z) (topic : string) (db : DB) :
  catalog_key db ->
  total topic db = used_count user topic db + Z.of_nat (length (eligible user topic db)).
Proof.
  intros Hk. rewrite used_count_spec by assumption.
  unfold total, catalog, eligible.
  rewrite (filter_split_length (fun q => (q_topic q =? topic)%string) (is_used user db)).
  lia.
Qed.


Lemma check_reset_exhausted (user : Z) (topic : string) (db : DB) :
  total topic db <= used_count user topic db ->
  check_reset user topic db = reset_usage user topic db.
Proof.
  intros H. unfold check_reset.
  destruct (Z.leb_spec (total topic db) (used_count user topic db)); [reflexivity|lia].
Qed.

Lemma check_reset_questions (user : Z) (topic : string) (db : DB) :
  questions (check_reset user topic db) = questions db.
Proof.
  unfold check_reset. now destruct (total topic db <=? used_count user topic db).
Qed.

(** A ledger without a row in the reset scope leaves the whole catalog
    eligible. *)
Lemma eligible_fresh (user : Z) (topic : string) (db : DB) :
  fresh_for user topic db -> eligible user topic db = catalog topic db.
Proof.
  intros Hf. unfold eligible, catalog. apply filter_ext_in. intros q Hq.
  destruct (String.eqb_spec (q_topic q) topic) as [Ht|]; [simpl|reflexivity].
  destruct (is_used user db q) eqn:Hu; [|reflexivity]. exfalso.
  apply is_used_iff in Hu as (qu & Hin & Hu & Hi).
  specialize (Hf qu Hin).
  assert (in_reset_scope user topic db qu = true) as Hs; [|congruence].
  apply in_reset_scope_iff. split; [assumption|].
  exists q. split; [|congruence]. now apply in_catalog.
Qed.

Lemma reset_fresh (user : Z) (topic : string) (db : DB) :
  fresh_for user topic (reset_usage user topic db).
Proof.
  intros qu Hin. simpl in Hin. apply filter_In in Hin as [_ Hs].
  apply negb_true_iff in Hs. exact Hs.
Qed.

Lemma eligible_reset (user : Z) (topic : string) (db : DB) :
  eligible user topic (reset_usage user topic db) = catalog topic db.
Proof.
  now rewrite (eligible_fresh _ _ _ (reset_fresh user topic db)).
Qed.

(** ** One draw *)

Section Draw.

Variables (user : Z) (topic : string) (n : Z) (db : DB).

Lemma draw_In (q : Question) :
  In q (fst (getRandomQuestions user topic n db)) -> In q (eligible user topic db).
Proof.
  intros H. apply limit_In in H.
  eapply Permutation_in; [apply order_by_random_perm | exact H].
Qed.

Lemma draw_key :
  catalog_key db -> NoDup (map q_id (fst (getRandomQuestions user topic n db))).
Proof.
  intros Hk. simpl.
  destruct (limit_split n (order_by_random (random db) (eligible user topic db)))
    as [rest E].
  assert (NoDup (map q_id (order_by_random (random db) (eligible user topic db)))) as H.
  { eapply NoDup_key_perm; [apply order_by_random_perm|].
    now apply NoDup_key_filter. }
  rewrite E, map_app in H. now apply NoDup_app_remove_r in H.
Qed.

Lemma draw_length :
  0 <= n ->
  length (fst (getRandomQuestions user topic n db))
  = Nat.min (Z.to_nat n) (length (eligible user topic db)).
Proof.
  intros Hn. simpl. rewrite limit_length by assumption.
  now rewrite (Permutation_length (order_by_random_perm _ _)).
Qed.

Lemma draw_questions :
  questions (snd (getRandomQuestions user topic n db)) = questions db.
Proof. reflexivity. Qed.

Lemma draw_usage :
  question_usage (snd (getRandomQuestions user topic n db))
  = question_usage db
    ++ map (fun q => mkUsage user (q_id q)) (fst (getRandomQuestions user topic n db)).
Proof. reflexivity. Qed.

Lemma draw_is_used (q : Question) :
  is_used user (snd (getRandomQuestions user topic n db)) q
  = is_used user db q
    || existsb (fun d => q_id q =? q_id d) (fst (getRandomQuestions user topic n db)).
Proof.
  unfold is_used, used_ids. rewrite draw_usage, filter_app, map_app, existsb_app.
  f_equal.
  induction (fst (getRandomQuestions user topic n db)) as [|d l IH];
    [reflexivity|].
  cbn [map filter user_id question_id existsb].
  rewrite Z.eqb_refl. cbn [map question_id existsb]. now rewrite IH.
Qed.

Lemma draw_eligible :
  eligible user topic (snd (getRandomQuestions user topic n db))
  = filter (fun q => negb (existsb (fun d => q_id q =? q_id d)
                                   (fst (getRandomQuestions user topic n db))))
           (eligible user topic db).
Proof.
  unfold eligible. rewrite draw_questions.
  induction (questions db) as [|q l IH]; [reflexivity|]. cbn [filter].
  rewrite draw_is_used, IH.
  now destruct (q_topic q =? topic)%string, (is_used user db q);
    cbn [filter andb orb negb].
Qed.

End Draw.

(** A single-question draw from a cycle that is not complete takes one
    eligible question out. *)
Lemma draw_one (user : Z) (topic : string) (db : DB) (k : nat) :
  catalog_key db ->
  length (eligible user topic db) = S k ->
  exists d,
    fst (getRandomQuestions user topic 1 db) = [d]
    /\ In d (eligible user topic db)
    /\ Permutation (eligible user topic db)
         (d :: eligible user topic (snd (getRandomQuestions user topic 1 db)))
    /\ length (eligible user topic (snd (getRandomQuestions user topic 1 db))) = k.
Proof.
  intros Hk Hlen.
  assert (0 <= 1) as H01 by lia.
  pose proof (draw_length user topic 1 db H01) as Hl.
  rewrite Hlen in Hl. change (Z.to_nat 1) with 1%nat in Hl. simpl Nat.min in Hl.
  destruct (fst (getRandomQuestions user topic 1 db)) as [|d [|? ?]] eqn:E;
    try discriminate Hl.
  exists d. split; [reflexivity|].
  assert (In d (eligible user topic db)) as Hin.
  { apply (draw_In user topic 1 db). rewrite E. now left. }
  split; [assumption|].
  assert (Permutation (eligible user topic db)
            (d :: eligible user topic (snd (getRandomQuestions user topic 1 db)))) as HP.
  { rewrite draw_eligible, E. simpl.
    erewrite filter_ext.
    - apply (filter_key_out q_id); [now apply NoDup_key_filter | assumption].
    - intros q. simpl. now rewrite orb_false_r. }
  split; [assumption|].
  apply Permutation_length in HP. rewrite Hlen in HP. cbn [length] in HP. lia.
Qed.

Lemma limit_one : limit_param (parse_count (Some "1")) = Some 1.
Proof. reflexivity. Qed.

Lemma get_questions_select (user : Z) (topic : string) (count : option string)
      (n : Z) (db : DB) :
  limit_param (parse_count count) = Some n ->
  get_questions user topic count db
  = (Ok (fst (selectQuestions user topic n db)), snd (selectQuestions user topic n db)).
Proof.
  intros H. unfold get_questions. rewrite H. reflexivity.
Qed.

Lemma run_cons (r : Request) (rest : list Request) (db : DB) :
  run (r :: rest) db
  = (fst (get_questions (req_user r) (req_topic r) (req_count r) db)
       :: fst (run rest (snd (get_questions (req_user r) (req_topic r) (req_count r) db))),
     snd (run rest (snd (get_questions (req_user r) (req_topic r) (req_count r) db)))).
Proof.
  simpl. destruct (get_questions _ _ _ db) as [res db1]. simpl.
  now destruct (run rest db1).
Qed.

(** ** Rotation *)



Lemma check_reset_key (user : Z) (topic : string) (db : DB) :
  catalog_key db -> catalog_key (check_reset user topic db).
Proof.
  unfold catalog_key. now rewrite check_reset_questions.
Qed.

(** What the draw can choose from, once the reset decision is taken. *)
Lemma eligible_check_reset (user : Z) (topic : string) (db : DB) :
  catalog_key db ->
  Z.of_nat (length (eligible user topic (check_reset user topic db)))
  = if total topic db <=? used_count user topic db
    then total topic db
    else total topic db - used_count user topic db.
Proof.
  intros Hk. unfold check_reset.
  destruct (total topic db <=? used_count user topic db).
  - now rewrite eligible_reset.
  - rewrite (total_split user topic db Hk). lia.
Qed.

Lemma used_count_fresh (user : Z) (topic : string) (db : DB) :
  catalog_key db -> fresh_for user topic db -> used_count user topic db = 0.
Proof.
  intros Hk Hf. pose proof (total_split user topic db Hk) as H.
  rewrite (eligible_fresh _ _ _ Hf) in H. unfold total in H. lia.
Qed.

(** C2, as amended. The size of the result: a request whose count is the
    integer [n >= 0] is answered without error by [min(n, N - usedCount)]
    questions of the topic, and by [min(n, N)] questions of the topic when
    the cycle is complete ([usedCount >= N]); no question is returned twice.
    So a user whose ledger holds no question of the topic receives
    [min(n, N)] questions, and a topic without questions gives the empty
    result. *)
Theorem result_size (user : Z) (topic : string) (count : option string)
        (n : Z) (db : DB) :
  catalog_key db ->
  limit_param (parse_count count) = Some n ->
  0 <= n ->
  exists qs,
    fst (get_questions user topic count db) = Ok qs
    /\ Z.of_nat (length qs)
       = Z.min n (if total topic db <=? used_count user topic db
                  then total topic db
                  else total topic db - used_count user topic db)
    /\ NoDup (map q_id qs)
    /\ (forall q, In q qs -> In q (catalog topic db))
    /\ (fresh_for user topic db -> Z.of_nat (length qs) = Z.min n (total topic db))
    /\ (total topic db = 0 -> qs = []).
Proof.
  intros Hk Hc Hn.
  rewrite (get_questions_select _ _ _ n _ Hc). unfold selectQuestions.
  set (db1 := check_reset user topic db).
  exists (fst (getRandomQuestions user topic n db1)).
  assert (Z.of_nat (length (fst (getRandomQuestions user topic n db1)))
          = Z.min n (if total topic db <=? used_count user topic db
                     then total topic db
                     else total topic db - used_count user topic db)) as Hlen.
  { rewrite draw_length by assumption.
    rewrite <- (eligible_check_reset user topic db Hk). fold db1. lia. }
  split; [reflexivity|]. split; [exact Hlen|].
  split; [apply draw_key, check_reset_key, Hk|].
  split; [|split].
  - intros q Hq. apply draw_In in Hq. apply filter_In in Hq as [Hq Hp].
    subst db1. rewrite check_reset_questions in Hq.
    apply andb_true_iff in Hp as [Ht _]. apply String.eqb_eq in Ht.
    now apply in_catalog.
  - intros Hf. rewrite Hlen, (used_count_fresh _ _ _ Hk Hf).
    unfold total. destruct (Z.leb_spec (Z.of_nat (length (catalog topic db))) 0); lia.
  - intros H0. rewrite H0 in Hlen.
    assert (0 <= used_count user topic db) as Hu by (unfold used_count; lia).
    destruct (Z.leb_spec 0 (used_count user topic db)) as [H|H] in Hlen;
      destruct (fst (getRandomQuestions user topic n db1));
      try reflexivity; cbn [length] in Hlen; lia.
Qed.

(** C3, as amended. Reset on exhaustion, for a topic that has a question:
    when the usage count has reached [N], a single-question request answers
    with one question, which the ledger held before the request; the ledger
    after the request is the ledger without the user's rows for the topic,
    followed by the row of that question, and the usage count is 1. *)
Theorem reset_on_exhaustion (user : Z) (topic : string) (db : DB) :
  catalog_key db ->
  1 <= total topic db ->
  total topic db <= used_count user topic db ->
  exists q,
    fst (get_questions user topic (Some "1") db) = Ok [q]
    /\ In q (catalog topic db)
    /\ is_used user db q = true
    /\ question_usage (snd (get_questions user topic (Some "1") db))
       = question_usage (reset_usage user topic db) ++ [mkUsage user (q_id q)]
    /\ used_count user topic (snd (get_questions user topic (Some "1") db)) = 1.
Proof.
  intros Hk H1 Hex.
  rewrite (get_questions_select _ _ _ 1 _ limit_one). unfold selectQuestions.
  rewrite (check_reset_exhausted _ _ _ Hex).
  set (dbr := reset_usage user topic db).
  assert (catalog_key dbr) as Hkr by exact Hk.
  assert (eligible user topic dbr = catalog topic db) as Her by apply eligible_reset.
  destruct (length (catalog topic db)) as [|k] eqn:Hlen.
  { unfold total in H1. rewrite Hlen in H1. simpl in H1. lia. }
  rewrite <- Her in Hlen.
  destruct (draw_one user topic dbr k Hkr Hlen) as (d & Ed & Hin & HP & Hl).
  exists d. cbn [fst snd]. split; [now rewrite Ed|].
  rewrite Her in Hin. split; [assumption|]. split; [|split].
  - pose proof (total_split user topic db Hk) as Hs.
    destruct (eligible user topic db) as [|e l] eqn:He; [|cbn [length] in Hs; lia].
    destruct (is_used user db d) eqn:Hu; [reflexivity|]. exfalso.
    apply in_catalog in Hin as [Hq Ht].
    assert (In d (eligible user topic db)) as Hd; [|now rewrite He in Hd].
    apply filter_In. split; [assumption|].
    rewrite Hu, andb_true_r. now apply String.eqb_eq.
  - rewrite draw_usage, Ed. reflexivity.
  - pose proof (total_split user topic
                  (snd (getRandomQuestions user topic 1 dbr)) Hkr) as Hs.
    rewrite Hl in Hs.
    change (total topic (snd (getRandomQuestions user topic 1 dbr)))
      with (total topic db) in Hs.
    unfold total in Hs. rewrite <- Her, Hlen in Hs. lia.
Qed.

(** ** The ledger invariant *)

Lemma get_questions_cases (user : Z) (topic : string) (count : option string)
      (db : DB) :
  get_questions user topic count db
  = match limit_param (parse_count count) with
    | None => (Err 500 "Database error", check_reset user topic db)
    | Some n =>
        (Ok (fst (getRandomQuestions user topic n (check_reset user topic db))),
         snd (getRandomQuestions user topic n (check_reset user topic db)))
    end.
Proof.
  unfold get_questions. now destruct (limit_param (parse_count count)).
Qed.

Lemma get_questions_questions (user : Z) (topic : string) (count : option string)
      (db : DB) :
  questions (snd (get_questions user topic count db)) = questions db.
Proof.
  rewrite get_questions_cases.
  destruct (limit_param (parse_count count)); cbn [snd];
    [rewrite draw_questions|]; apply check_reset_questions.
Qed.

Lemma check_reset_NoDup (user : Z) (topic : string) (db : DB) :
  NoDup (question_usage db) -> NoDup (question_usage (check_reset user topic db)).
Proof.
  intros H. unfold check_reset.
  destruct (total topic db <=? used_count user topic db); [|assumption].
  now apply NoDup_filter.
Qed.

(** A draw marks only questions that the user's ledger does not hold. *)
Lemma draw_marks_fresh (user : Z) (topic : string) (n : Z) (db : DB) (q : Question) :
  In q (fst (getRandomQuestions user topic n db)) ->
  ~ In (mkUsage user (q_id q)) (question_usage db).
Proof.
  intros Hq Hin. apply draw_In in Hq. apply filter_In in Hq as [_ Hp].
  apply andb_true_iff in Hp as [_ Hu]. apply negb_true_iff in Hu.
  assert (is_used user db q = true) as Hu'; [|congruence].
  apply is_used_iff. now exists (mkUsage user (q_id q)).
Qed.

Lemma draw_NoDup (user : Z) (topic : string) (n : Z) (db : DB) :
  catalog_key db ->
  NoDup (question_usage db) ->
  NoDup (question_usage (snd (getRandomQuestions user topic n db))).
Proof.
  intros Hk Hn. rewrite draw_usage. apply NoDup_app.
  - assumption.
  - pose proof (draw_key user topic n db Hk) as Hd.
    induction (fst (getRandomQuestions user topic n db)) as [|d l IH]; simpl.
    + constructor.
    + inversion Hd as [|? ? Hni Hdl]; subst. constructor; [|now apply IH].
      intros Hin. apply Hni. apply in_map_iff in Hin as (x & Hx & Hin).
      injection Hx as Hx. rewrite <- Hx. now apply in_map.
  - intros qu Hin Hin'. apply in_map_iff in Hin' as (q & <- & Hq).
    now apply draw_marks_fresh in Hq.
Qed.

Lemma get_questions_NoDup (user : Z) (topic : string) (count : option string)
      (db : DB) :
  catalog_key db ->
  NoDup (question_usage db) ->
  NoDup (question_usage (snd (get_questions user topic count db))).
Proof.
  intros Hk Hn. rewrite get_questions_cases.
  destruct (limit_param (parse_count count)); cbn [snd].
  - apply draw_NoDup; [now apply check_reset_key | now apply check_reset_NoDup].
  - now apply check_reset_NoDup.
Qed.

Lemma run_NoDup (reqs : list Request) :
  forall db,
    catalog_key db ->
    NoDup (question_usage db) ->
    NoDup (question_usage (snd (run reqs db))).
Proof.
  induction reqs as [|r rest IH]; intros db Hk Hn; [exact Hn|].
  rewrite run_cons. cbn [snd]. apply IH.
  - unfold catalog_key. now rewrite get_questions_questions.
  - now apply get_questions_NoDup.
Qed.

(** As long as the INSERTs of each request are carried out before the next
    request is handled, which is what [run] does: from an empty ledger no
    (user, question) pair occurs twice in the ledger, and the questions that
    a next draw returns and marks are not in the user's ledger when they
    are marked.  The handler itself does not wait for its INSERTs, which
    the part on the queued INSERTs follows. *)
Theorem usage_pairs_unique (reqs : list Request) (db : DB) :
  catalog_key db ->
  question_usage db = [] ->
  NoDup (question_usage (snd (run reqs db)))
  /\ forall user topic n q,
       In q (fst (selectQuestions user topic n (snd (run reqs db)))) ->
       ~ In (mkUsage user (q_id q))
            (question_usage (check_reset user topic (snd (run reqs db)))).
Proof.
  intros Hk He. split.
  - apply run_NoDup; [assumption|]. rewrite He. constructor.
  - intros user topic n q. apply draw_marks_fresh.
Qed.

(** ** The frame of the reset *)

Lemma filter_through {A : Type} (p r : A -> bool) (l : list A) :
  (forall x, In x l -> p x = true -> r x = true) ->
  filter p (filter r l) = filter p l.
Proof.
  induction l as [|a l IH]; intros H; simpl; [reflexivity|].
  assert (filter p (filter r l) = filter p l) as E.
  { apply IH. intros x Hx. apply H. now right. }
  destruct (r a) eqn:Hr; simpl.
  - now rewrite E.
  - destruct (p a) eqn:Hp; [|exact E].
    rewrite (H a (or_introl eq_refl) Hp) in Hr. discriminate.
Qed.

(** A question belongs to one topic only. *)
Lemma scope_one_topic (user : Z) (topic topic' : string) (db : DB) (qu : Usage) :
  catalog_key db -> topic' <> topic ->
  in_reset_scope user topic' db qu = true ->
  in_reset_scope user topic db qu = false.
Proof.
  intros Hk Hne H'.
  destruct (in_reset_scope user topic db qu) eqn:H; [exfalso|reflexivity].
  apply in_reset_scope_iff in H as [_ (q & Hq & Hi)].
  apply in_reset_scope_iff in H' as [_ (q' & Hq' & Hi')].
  apply in_catalog in Hq as [Hq Ht]. apply in_catalog in Hq' as [Hq' Ht'].
  assert (q = q') as E.
  { apply (key_inj q_id (questions db)); [exact Hk|assumption|assumption|congruence]. }
  congruence.
Qed.

(** C5. The frame of the reset: it changes the usage ledger only; the rows
    of any other user are what they were, the requesting user's rows for
    the questions of any other topic are what they were, and a row that
    the reset removed is a row of the requesting user for a question of the
    topic. *)
Theorem reset_frame (user : Z) (topic : string) (db : DB) :
  catalog_key db ->
  questions (reset_usage user topic db) = questions db
  /\ interview_attempts (reset_usage user topic db) = interview_attempts db
  /\ (forall other, other <> user ->
        filter (fun qu => user_id qu =? other) (question_usage (reset_usage user topic db))
        = filter (fun qu => user_id qu =? other) (question_usage db))
  /\ (forall topic', topic' <> topic ->
        filter (in_reset_scope user topic' db) (question_usage (reset_usage user topic db))
        = filter (in_reset_scope user topic' db) (question_usage db))
  /\ (forall qu, In qu (question_usage db) ->
        ~ In qu (question_usage (reset_usage user topic db)) ->
        user_id qu = user
        /\ exists q, In q (catalog topic db) /\ q_id q = question_id qu).
Proof.
  intros Hk. split; [reflexivity|]. split; [reflexivity|].
  split; [|split].
  - intros other Hne. apply filter_through. intros qu _ Hu.
    apply Z.eqb_eq in Hu. unfold in_reset_scope.
    destruct (Z.eqb_spec (user_id qu) user); [congruence|reflexivity].
  - intros topic' Hne. apply filter_through. intros qu _ Hs.
    now rewrite (scope_one_topic user topic topic' db qu Hk Hne Hs).
  - intros qu Hin Hout. apply in_reset_scope_iff.
    destruct (in_reset_scope user topic db qu) eqn:Hs; [reflexivity|].
    exfalso. apply Hout. simpl. apply filter_In. now rewrite Hs.
Qed.

(** The whole request leaves the other users' rows alone as well. *)
Lemma get_questions_other_users (user other : Z) (topic : string)
      (count : option string) (db : DB) :
  other <> user ->
  filter (fun qu => user_id qu =? other)
         (question_usage (snd (get_questions user topic count db)))
  = filter (fun qu => user_id qu =? other) (question_usage db).
Proof.
  intros Hne.
  assert (filter (fun qu => user_id qu =? other)
                 (question_usage (check_reset user topic db))
          = filter (fun qu => user_id qu =? other) (question_usage db)) as Hr.
  { unfold check_reset.
    destruct (total topic db <=? used_count user topic db); [|reflexivity].
    apply filter_through. intros qu _ Hu. apply Z.eqb_eq in Hu.
    unfold in_reset_scope.
    destruct (Z.eqb_spec (user_id qu) user); [congruence|reflexivity]. }
  rewrite get_questions_cases.
  destruct (limit_param (parse_count count)) as [n|]; cbn [snd]; [|exact Hr].
  rewrite draw_usage, filter_app, Hr.
  induction (fst (getRandomQuestions user topic n (check_reset user topic db)))
    as [|d l IH]; simpl; [now rewrite app_nil_r|].
  destruct (Z.eqb_spec user other); [congruence|exact IH].
Qed.

(** ** The count parameter *)

(** C9, as amended. The count parameter is not validated: whatever the
    count string is, the request is not answered by a validation error.
    The string goes through [parseInt]; when that gives an integer that
    the [LIMIT] accepts, the draw is made with it, and otherwise the draw
    query fails and the answer is the database error, status 500. *)
Theorem count_not_validated (user : Z) (topic : string) (count : option string)
        (db : DB) :
  is_validation_error (fst (get_questions user topic count db)) = false
  /\ match limit_param (parse_count count) with
     | Some n =>
         fst (get_questions user topic count db)
         = Ok (fst (selectQuestions user topic n db))
     | None =>
         fst (get_questions user topic count db) = Err 500 "Database error"
     end.
Proof.
  rewrite get_questions_cases.
  now destruct (limit_param (parse_count count)).
Qed.

(** ** Attempts *)

Lemma post_attempts_rejected (user : Z) (b : AttemptBody) (now : Z) (db : DB) :
  missing_required b = true -> rejected user b now db.
Proof.
  intros H. unfold rejected, post_attempts. now rewrite H.
Qed.

Lemma post_attempts_accepted (user : Z) (b : AttemptBody) (now : Z) (db : DB) :
  missing_required b = false -> accepted user b now db.
Proof.
  intros H. unfold accepted, post_attempts. rewrite H.
  exists (attempt_row user b now db). now repeat split.
Qed.

(** C6, as amended. Attempt validation: a submission is rejected with the
    validation error, and nothing is written, when one of [topic], [score],
    [totalQuestions], [correctAnswers] is absent, or when [topic] or
    [totalQuestions] is null or another falsy value (the empty string, 0,
    false); it is accepted and stored when [score] and [correctAnswers] are
    present and [topic] and [totalQuestions] are truthy, and then a
    [correctAnswers] of 0 is stored as 0. *)
Theorem attempt_validation (user : Z) (b : AttemptBody) (now : Z) (db : DB) :
  (topic b = JS.Undefined \/ b_score b = JS.Undefined
   \/ totalQuestions b = JS.Undefined \/ correctAnswers b = JS.Undefined
   \/ JS.truthy (topic b) = false \/ JS.truthy (totalQuestions b) = false ->
   rejected user b now db)
  /\ (JS.truthy (topic b) = true -> JS.truthy (totalQuestions b) = true ->
      present (b_score b) -> present (correctAnswers b) ->
      accepted user b now db
      /\ (correctAnswers b = JS.Num 0 ->
          exists row,
            interview_attempts (snd (post_attempts user b now db))
            = interview_attempts db ++ [row]
            /\ correct_answers row = SNum 0)).
Proof.
  split.
  - intros H. apply post_attempts_rejected. unfold missing_required.
    destruct H as [H|[H|[H|[H|[H|H]]]]]; rewrite H; simpl;
      repeat rewrite orb_true_r; reflexivity.
  - intros Ht Hq [Hs _] [Hc _].
    assert (missing_required b = false) as Hm.
    { unfold missing_required. rewrite Ht, Hq. simpl.
      destruct (b_score b), (correctAnswers b); simpl; congruence. }
    split; [now apply post_attempts_accepted|].
    intros H0. unfold post_attempts. rewrite Hm. cbn [snd interview_attempts].
    exists (attempt_row user b now db). split; [reflexivity|].
    simpl. now rewrite H0.
Qed.

(** C10. The falsy edge of the required-field check: a submission whose
    [totalQuestions] is 0, or whose [topic] is the empty string, is rejected
    as missing required fields, whatever the other fields are; a [score] of
    0 and a [correctAnswers] of 0 are not. *)
Theorem falsy_rejection (user : Z) (b : AttemptBody) (now : Z) (db : DB) :
  (totalQuestions b = JS.Num 0 \/ topic b = JS.Str EmptyString -> rejected user b now db)
  /\ (JS.truthy (topic b) = true -> JS.truthy (totalQuestions b) = true ->
      b_score b = JS.Num 0 -> correctAnswers b = JS.Num 0 ->
      accepted user b now db).
Proof.
  split.
  - intros H. apply post_attempts_rejected. unfold missing_required.
    destruct H as [H|H]; rewrite H; simpl; repeat rewrite orb_true_r; reflexivity.
  - intros Ht Hq Hs Hc. apply post_attempts_accepted.
    unfold missing_required. now rewrite Ht, Hq, Hs, Hc.
Qed.

(** ** Analytics and listings *)

Lemma attempts_of_none (user : Z) (db : DB) :
  (forall a, In a (interview_attempts db) -> a_user_id a <> user) ->
  attempts_of user db = [].
Proof.
  intros H. unfold attempts_of.
  induction (interview_attempts db) as [|a l IH]; simpl; [reflexivity|].
  destruct (Z.eqb_spec (a_user_id a) user) as [E|_].
  - exfalso. apply (H a); [now left | exact E].
  - apply IH. intros x Hx. apply H. now right.
Qed.

(** C7. Analytics without data: for a user who has no stored attempt the
    answer is not an error; its overall count is 0, and the mean, largest
    and smallest score and the mean duration are NULL, not a number. *)
Theorem analytics_no_data (text_to_real : string -> Q) (user : Z) (db : DB) :
  (forall a, In a (interview_attempts db) -> a_user_id a <> user) ->
  exists a,
    get_analytics text_to_real user db = Ok a
    /\ total_attempts (overall a) = 0
    /\ average_score (overall a) = SNull
    /\ best_score (overall a) = SNull
    /\ worst_score (overall a) = SNull
    /\ avg_duration (overall a) = SNull
    /\ topicStats a = []
    /\ recentAttempts a = [].
Proof.
  intros H. exists (analytics_of text_to_real user db).
  split; [reflexivity|].
  unfold analytics_of. rewrite (attempts_of_none user db H).
  now repeat split.
Qed.

Lemma attempts_of_insert (user : Z) (db : DB) (l1 l2 : list Attempt) (row : Attempt) :
  a_user_id row <> user ->
  attempts_of user (with_attempts db (l1 ++ row :: l2))
  = attempts_of user (with_attempts db (l1 ++ l2)).
Proof.
  intros Hne. unfold attempts_of. simpl.
  rewrite !filter_app. simpl.
  destruct (Z.eqb_spec (a_user_id row) user); [contradiction|reflexivity].
Qed.

Lemma listing_In (user : Z) (db : DB) (a : Attempt) :
  In a (attempts_listing user db) <->
  In a (interview_attempts db) /\ a_user_id a = user.
Proof.
  unfold attempts_listing, attempts_of. split; intros H.
  - apply (Permutation_in _ (order_by_desc_perm _ _)) in H.
    apply filter_In in H as [Hin Hu]. now apply Z.eqb_eq in Hu.
  - destruct H as [Hin Hu].
    apply (Permutation_in _ (Permutation_sym (order_by_desc_perm _ _))).
    apply filter_In. split; [assumption | now apply Z.eqb_eq].
Qed.

(** C8. Scoping by user: a row of user B, wherever it is put in the table,
    changes neither the listing nor any of the three analytics components
    of another user A; the row is not in A's listing, every listed attempt
    is a row of A, the listing goes by attempt date downwards, and the
    recent trend is made of the first 20 attempts of A's listing. *)
Theorem per_user_scoping (text_to_real : string -> Q) (A B : Z) (db : DB)
        (l1 l2 : list Attempt) (row : Attempt) :
  A <> B ->
  a_user_id row = B ->
  get_attempts A (with_attempts db (l1 ++ row :: l2))
  = get_attempts A (with_attempts db (l1 ++ l2))
  /\ get_analytics text_to_real A (with_attempts db (l1 ++ row :: l2))
     = get_analytics text_to_real A (with_attempts db (l1 ++ l2))
  /\ ~ In row (attempts_listing A (with_attempts db (l1 ++ row :: l2)))
  /\ (forall a, In a (attempts_listing A (with_attempts db (l1 ++ row :: l2))) ->
        a_user_id a = A)
  /\ Sorted (fun a b => attempt_date b <= attempt_date a)
            (attempts_listing A (with_attempts db (l1 ++ row :: l2)))
  /\ recentAttempts (analytics_of text_to_real A (with_attempts db (l1 ++ row :: l2)))
     = map recent_of
           (firstn 20 (attempts_listing A (with_attempts db (l1 ++ row :: l2)))).
Proof.
  intros Hne Hrow.
  assert (a_user_id row <> A) as Hr by congruence.
  split; [|split; [|split; [|split; [|split]]]].
  - unfold get_attempts, attempts_listing. now rewrite attempts_of_insert.
  - unfold get_analytics, analytics_of. now rewrite attempts_of_insert.
  - intros Hin. apply listing_In in Hin as [_ E]. contradiction.
  - intros a Hin. now apply listing_In in Hin.
  - apply order_by_desc_sorted.
  - reflexivity.
Qed.

(** An attempt submitted by B does not show in what A is given. *)
Lemma post_attempts_scoped (text_to_real : string -> Q) (A B : Z)
      (b : AttemptBody) (now : Z) (db : DB) :
  A <> B ->
  get_attempts A (snd (post_attempts B b now db)) = get_attempts A db
  /\ get_analytics text_to_real A (snd (post_attempts B b now db))
     = get_analytics text_to_real A db.
Proof.
  intros Hne. unfold post_attempts.
  destruct (missing_required b); cbn [snd]; [now split|].
  assert (attempts_of A
            (mkDB (questions db) (question_usage db)
                  (interview_attempts db ++ [attempt_row B b now db]) (random db))
          = attempts_of A db) as E.
  { unfold attempts_of. cbn [interview_attempts]. rewrite filter_app. simpl.
    destruct (Z.eqb_spec B A); [congruence|now rewrite app_nil_r]. }
  unfold get_attempts, attempts_listing, get_analytics, analytics_of.
  now rewrite E.
Qed.

(** * The statements on the sample data *)

Ltac sample_key :=
  unfold catalog_key; simpl; repeat constructor; simpl; intuition discriminate.

Ltac z_le := apply Z.leb_le; reflexivity.

Example parseInt_digits : JS.parseInt "1" = JS.Int 1.
Proof. reflexivity. Qed.

Example parseInt_prefix : JS.parseInt "3abc" = JS.Int 3.
Proof. reflexivity. Qed.

Example parseInt_letters : JS.parseInt "abc" = JS.NaN.
Proof. reflexivity. Qed.

Example parseInt_empty : JS.parseInt EmptyString = JS.NaN.
Proof. reflexivity. Qed.

Example parseInt_signed : JS.parseInt "  -12px" = JS.Int (-12).
Proof. reflexivity. Qed.

Example parseInt_hex : JS.parseInt "0x1f" = JS.Int 31.
Proof. reflexivity. Qed.

Example count_default : limit_param (parse_count None) = Some 5.
Proof. reflexivity. Qed.

Example sample_three_draws :
  fst (run (single_draws 3 7 "js") Sample.db0)
  = [Ok [mkQuestion 2 "js" "What does typeof null give?" "beginner"];
     Ok [mkQuestion 3 "js" "What is hoisting?" "beginner"];
     Ok [mkQuestion 1 "js" "What is a closure?" "beginner"]].
Proof. reflexivity. Qed.


(** C2 as it was stated fails where a cycle is under way: with one of the
    three questions of the topic used, a request for three questions gets
    two, and [min(3, N)] is 3. *)
Lemma result_size_counterexample :
  exists qs,
    fst (get_questions 7 "js" (Some "3") Sample.db_partial) = Ok qs
    /\ Z.of_nat (length qs) = 2
    /\ Z.of_nat (length qs) <> Z.min 3 (total "js" Sample.db_partial).
Proof.
  eexists. split; [reflexivity|]. split; [reflexivity|].
  vm_compute. discriminate.
Qed.

Lemma result_size_witness :
  catalog_key Sample.db_partial
  /\ limit_param (parse_count (Some "3")) = Some 3
  /\ 0 <= 3
  /\ exists qs,
       fst (get_questions 7 "js" (Some "3") Sample.db_partial) = Ok qs
       /\ Z.of_nat (length qs)
          = Z.min 3 (if total "js" Sample.db_partial
                        <=? used_count 7 "js" Sample.db_partial
                     then total "js" Sample.db_partial
                     else total "js" Sample.db_partial
                          - used_count 7 "js" Sample.db_partial)
       /\ NoDup (map q_id qs)
       /\ (forall q, In q qs -> In q (catalog "js" Sample.db_partial))
       /\ (fresh_for 7 "js" Sample.db_partial ->
           Z.of_nat (length qs) = Z.min 3 (total "js" Sample.db_partial))
       /\ (total "js" Sample.db_partial = 0 -> qs = []).
Proof.
  assert (catalog_key Sample.db_partial) as Hk by sample_key.
  assert (0 <= 3) as H3 by z_le.
  split; [exact Hk|]. split; [reflexivity|]. split; [exact H3|].
  exact (result_size 7 "js" (Some "3") 3 Sample.db_partial Hk eq_refl H3).
Defined.

(** C3 as it was stated fails on a topic without questions: the usage count
    0 has reached [N = 0], the single draw returns nothing, and the usage
    count after it is 0. *)
Lemma reset_on_exhaustion_counterexample :
  total "go" Sample.db0 <= used_count 7 "go" Sample.db0
  /\ fst (get_questions 7 "go" (Some "1") Sample.db0) = Ok []
  /\ used_count 7 "go" (snd (get_questions 7 "go" (Some "1") Sample.db0)) = 0
  /\ used_count 7 "go" (snd (get_questions 7 "go" (Some "1") Sample.db0)) <> 1.
Proof.
  split; [z_le|]. split; [reflexivity|]. split; [reflexivity|].
  vm_compute. discriminate.
Qed.

Lemma reset_on_exhaustion_witness :
  catalog_key Sample.db_full
  /\ 1 <= total "js" Sample.db_full
  /\ total "js" Sample.db_full <= used_count 7 "js" Sample.db_full
  /\ exists q,
       fst (get_questions 7 "js" (Some "1") Sample.db_full) = Ok [q]
       /\ In q (catalog "js" Sample.db_full)
       /\ is_used 7 Sample.db_full q = true
       /\ question_usage (snd (get_questions 7 "js" (Some "1") Sample.db_full))
          = question_usage (reset_usage 7 "js" Sample.db_full) ++ [mkUsage 7 (q_id q)]
       /\ used_count 7 "js" (snd (get_questions 7 "js" (Some "1") Sample.db_full)) = 1.
Proof.
  assert (catalog_key Sample.db_full) as Hk by sample_key.
  assert (1 <= total "js" Sample.db_full) as H1 by z_le.
  assert (total "js" Sample.db_full <= used_count 7 "js" Sample.db_full) as H2 by z_le.
  split; [exact Hk|]. split; [exact H1|]. split; [exact H2|].
  exact (reset_on_exhaustion 7 "js" Sample.db_full Hk H1 H2).
Defined.

Example sample_reset_ledger :
  question_usage (snd (get_questions 7 "js" (Some "1") Sample.db_full))
  = [mkUsage 8 2; mkUsage 7 4; mkUsage 7 2].
Proof. reflexivity. Qed.

Lemma usage_pairs_unique_witness :
  catalog_key Sample.db0
  /\ question_usage Sample.db0 = []
  /\ NoDup (question_usage
              (snd (run [mkRequest 7 "js" (Some "2"); mkRequest 8 "js" None;
                         mkRequest 7 "js" (Some "2"); mkRequest 7 "py" (Some "x")]
                        Sample.db0))).
Proof.
  assert (catalog_key Sample.db0) as Hk by sample_key.
  split; [exact Hk|]. split; [reflexivity|].
  exact (proj1 (usage_pairs_unique _ Sample.db0 Hk eq_refl)).
Defined.

Lemma reset_frame_witness :
  catalog_key Sample.db_full
  /\ filter (fun qu => user_id qu =? 8)
            (question_usage (reset_usage 7 "js" Sample.db_full))
     = filter (fun qu => user_id qu =? 8) (question_usage Sample.db_full)
  /\ filter (in_reset_scope 7 "py" Sample.db_full)
            (question_usage (reset_usage 7 "js" Sample.db_full))
     = filter (in_reset_scope 7 "py" Sample.db_full) (question_usage Sample.db_full).
Proof.
  assert (catalog_key Sample.db_full) as Hk by sample_key.
  destruct (reset_frame 7 "js" Sample.db_full Hk) as (_ & _ & Hu & Ht & _).
  split; [exact Hk|]. split.
  - apply Hu. discriminate.
  - apply Ht. discriminate.
Defined.

(** C9 as it was stated fails: a count that starts with a digit is taken
    for that digit and the draw is made, and a count without a digit gives
    the database error, which is not a validation error. *)
Lemma count_validation_counterexample :
  (exists qs,
     fst (get_questions 7 "js" (Some "3abc") Sample.db0) = Ok qs
     /\ length qs = 3%nat)
  /\ fst (get_questions 7 "js" (Some "abc") Sample.db0) = Err 500 "Database error"
  /\ is_validation_error (fst (get_questions 7 "js" (Some "3abc") Sample.db0)) = false
  /\ is_validation_error (fst (get_questions 7 "js" (Some "abc") Sample.db0)) = false.
Proof.
  split; [eexists; split; reflexivity|]. now repeat split.
Qed.

(** C6 as it was stated fails: all four required fields are given and not
    null, [correctAnswers] is 0, and the submission is rejected, because
    [totalQuestions] is 0. *)
Lemma attempt_validation_counterexample :
  present (topic Sample.body_zero_total)
  /\ present (b_score Sample.body_zero_total)
  /\ present (totalQuestions Sample.body_zero_total)
  /\ present (correctAnswers Sample.body_zero_total)
  /\ correctAnswers Sample.body_zero_total = JS.Num 0
  /\ rejected 7 Sample.body_zero_total 50 Sample.db0.
Proof.
  unfold present. repeat split; discriminate.
Qed.

Lemma attempt_validation_witness :
  rejected 7 Sample.body_no_correct 50 Sample.db0
  /\ accepted 7 Sample.body_none_correct 50 Sample.db0
  /\ exists row,
       interview_attempts (snd (post_attempts 7 Sample.body_none_correct 50 Sample.db0))
       = interview_attempts Sample.db0 ++ [row]
       /\ correct_answers row = SNum 0.
Proof.
  split.
  - apply (proj1 (attempt_validation 7 Sample.body_no_correct 50 Sample.db0)).
    right. right. right. left. reflexivity.
  - assert (present (JS.Num 0)) as Hp by (split; discriminate).
    destruct (proj2 (attempt_validation 7 Sample.body_none_correct 50 Sample.db0)
                eq_refl eq_refl Hp Hp) as [Ha Hz].
    split; [exact Ha|]. apply Hz. reflexivity.
Defined.

Lemma falsy_rejection_witness :
  rejected 7 Sample.body_zero_total 50 Sample.db0
  /\ rejected 7 Sample.body_empty_topic 50 Sample.db0
  /\ accepted 7 Sample.body_none_correct 50 Sample.db0.
Proof.
  split; [|split].
  - apply (proj1 (falsy_rejection 7 Sample.body_zero_total 50 Sample.db0)).
    left. reflexivity.
  - apply (proj1 (falsy_rejection 7 Sample.body_empty_topic 50 Sample.db0)).
    right. reflexivity.
  - apply (proj2 (falsy_rejection 7 Sample.body_none_correct 50 Sample.db0));
      reflexivity.
Defined.

Lemma analytics_no_data_witness :
  (forall a, In a (interview_attempts (with_attempts Sample.db0 [Sample.attempt_of_8])) ->
             a_user_id a <> 7)
  /\ exists a,
    get_analytics Sample.no_text 7 (with_attempts Sample.db0 [Sample.attempt_of_8]) = Ok a
    /\ total_attempts (overall a) = 0
    /\ average_score (overall a) = SNull
    /\ best_score (overall a) = SNull
    /\ worst_score (overall a) = SNull
    /\ avg_duration (overall a) = SNull
    /\ topicStats a = []
    /\ recentAttempts a = [].
Proof.
  assert (forall a,
             In a (interview_attempts (with_attempts Sample.db0 [Sample.attempt_of_8])) ->
             a_user_id a <> 7) as H.
  { intros a [<-|[]]. discriminate. }
  split; [exact H|].
  exact (analytics_no_data Sample.no_text 7
           (with_attempts Sample.db0 [Sample.attempt_of_8]) H).
Defined.

Lemma per_user_scoping_witness :
  7 <> 8
  /\ a_user_id Sample.attempt_of_8 = 8
  /\ get_attempts 7 (with_attempts Sample.db0
                    ([hd Sample.attempt_of_8 Sample.attempts_of_7]
                       ++ Sample.attempt_of_8 :: tl Sample.attempts_of_7))
  = get_attempts 7 (with_attempts Sample.db0
                      ([hd Sample.attempt_of_8 Sample.attempts_of_7]
                         ++ tl Sample.attempts_of_7))
  /\ get_analytics Sample.no_text 7
       (with_attempts Sample.db0
          ([hd Sample.attempt_of_8 Sample.attempts_of_7]
             ++ Sample.attempt_of_8 :: tl Sample.attempts_of_7))
     = get_analytics Sample.no_text 7
         (with_attempts Sample.db0
            ([hd Sample.attempt_of_8 Sample.attempts_of_7]
               ++ tl Sample.attempts_of_7)).
Proof.
  assert (7 <> 8) as Hne by discriminate.
  destruct (per_user_scoping Sample.no_text 7 8 Sample.db0
              [hd Sample.attempt_of_8 Sample.attempts_of_7]
              (tl Sample.attempts_of_7) Sample.attempt_of_8 Hne eq_refl)
    as (Hl & Ha & _).
  split; [exact Hne|]. split; [reflexivity|].
  split; [exact Hl | exact Ha].
Defined.

(** * Further properties of the handlers *)

(** ** The topic list *)

Lemma insert_topic_perm (t : string) (l : list string) :
  Permutation (insert_topic t l) (t :: l).
Proof.
  induction l as [|x r IH]; simpl.
  - apply Permutation_refl.
  - destruct (String.leb t x); [apply Permutation_refl|].
    eapply perm_trans; [apply perm_skip, IH | apply perm_swap].
Qed.

Lemma sort_topics_perm (l : list string) : Permutation (sort_topics l) l.
Proof.
  induction l as [|t r IH]; simpl.
  - apply perm_nil.
  - eapply perm_trans; [apply insert_topic_perm | apply perm_skip, IH].
Qed.

Lemma insert_topic_sorted (t : string) (l : list string) :
  Sorted (fun a b => String.leb a b = true) l ->
  Sorted (fun a b => String.leb a b = true) (insert_topic t l).
Proof.
  induction l as [|x r IH]; simpl; intros H.
  - repeat constructor.
  - destruct (String.leb t x) eqn:E.
    + constructor; [exact H|]. constructor. exact E.
    + apply Sorted_inv in H as [Hs Hh].
      assert (String.leb x t = true) as Hx.
      { destruct (String.leb_total t x) as [H|H]; [congruence|exact H]. }
      constructor; [now apply IH|].
      destruct r as [|y r]; simpl.
      * constructor. exact Hx.
      * apply HdRel_inv in Hh. destruct (String.leb t y); constructor; assumption.
Qed.

Lemma sort_topics_sorted (l : list string) :
  Sorted (fun a b => String.leb a b = true) (sort_topics l).
Proof.
  induction l as [|t r IH]; simpl.
  - constructor.
  - now apply insert_topic_sorted.
Qed.

Lemma topic_names_In (db : DB) (t : string) :
  In t (topic_names db) <-> exists q, In q (questions db) /\ q_topic q = t.
Proof.
  unfold topic_names. split.
  - intros H. apply (Permutation_in _ (sort_topics_perm _)) in H.
    apply nodup_In, in_map_iff in H as (q & Hq & Hin). now exists q.
  - intros (q & Hin & Hq).
    apply (Permutation_in _ (Permutation_sym (sort_topics_perm _))).
    apply nodup_In, in_map_iff. now exists q.
Qed.

(** X1. The topic list names each topic once, in ascending byte order, and
    names exactly the topics that have a question in the catalog. *)
Theorem topics_listing (db : DB) :
  NoDup (topic_names db)
  /\ Sorted (fun a b => String.leb a b = true) (topic_names db)
  /\ (forall t, In t (topic_names db) <-> catalog t db <> []).
Proof.
  split; [|split].
  - eapply Permutation_NoDup; [apply Permutation_sym, sort_topics_perm|].
    apply NoDup_nodup.
  - apply sort_topics_sorted.
  - intros t. rewrite topic_names_In. split.
    + intros (q & Hin & Hq) E.
      assert (In q (catalog t db)) as H by now apply in_catalog.
      rewrite E in H. destruct H.
    + intros H. destruct (catalog t db) as [|q l] eqn:E; [congruence|].
      exists q. apply in_catalog. rewrite E. now left.
Qed.

Lemma listed_has_question (db : DB) (t : string) :
  In t (topic_names db) -> catalog t db <> [].
Proof.
  intros H E. apply topic_names_In in H as (q & Hin & Hq).
  assert (In q (catalog t db)) as Hc by now apply in_catalog.
  rewrite E in Hc. destruct Hc.
Qed.

(** ** More on the question requests *)


(** What the draw can choose from is never empty for a topic that has a
    question. *)
Lemma eligible_check_reset_nonempty (user : Z) (topic : string) (db : DB) :
  catalog_key db -> catalog topic db <> [] ->
  eligible user topic (check_reset user topic db) <> [].
Proof.
  intros Hk Hne E.
  pose proof (eligible_check_reset user topic db Hk) as H.
  rewrite E in H. simpl in H.
  assert (1 <= total topic db) as Ht.
  { unfold total. destruct (catalog topic db); [congruence|].
    cbn [length]. lia. }
  destruct (Z.leb_spec (total topic db) (used_count user topic db)); lia.
Qed.

(** X2. A request for a listed topic with a count other than 0 never comes
    back empty: it returns at least one question, whatever the state of the
    user's cycle; a request for a topic that is not listed returns the
    empty result. *)
Theorem listed_topic_draw (user : Z) (topic : string) (count : option string)
        (n : Z) (db : DB) :
  catalog_key db ->
  limit_param (parse_count count) = Some n ->
  n <> 0 ->
  (In topic (topic_names db) ->
   exists q qs, fst (get_questions user topic count db) = Ok (q :: qs))
  /\ (~ In topic (topic_names db) ->
      fst (get_questions user topic count db) = Ok []).
Proof.
  intros Hk Hc Hn. rewrite get_questions_cases, Hc. cbn [fst].
  set (db1 := check_reset user topic db).
  split.
  - intros Hin. apply listed_has_question in Hin.
    pose proof (eligible_check_reset_nonempty user topic db Hk Hin) as Hne.
    fold db1 in Hne.
    assert (order_by_random (random db1) (eligible user topic db1) <> []) as Hs.
    { intros E. apply Hne.
      apply Permutation_nil. rewrite <- E. apply order_by_random_perm. }
    simpl. destruct (order_by_random (random db1) (eligible user topic db1))
      as [|q l]; [congruence|].
    unfold limit. destruct (Z.ltb_spec n 0); [now exists q, l|].
    destruct (Z.to_nat n) as [|m] eqn:Em; [lia|].
    simpl. now exists q, (firstn m l).
  - intros Hout.
    assert (eligible user topic db1 = []) as E.
    { destruct (eligible user topic db1) as [|q l] eqn:E; [reflexivity|exfalso].
      apply Hout, topic_names_In. exists q.
      assert (In q (eligible user topic db1)) as Hq by (rewrite E; now left).
      apply filter_In in Hq as [Hq Hp]. subst db1.
      rewrite check_reset_questions in Hq.
      apply andb_true_iff in Hp as [Ht _]. now apply String.eqb_eq in Ht. }
    simpl. rewrite E. simpl. unfold limit. destruct (n <? 0); [reflexivity|].
    now destruct (Z.to_nat n).
Qed.

Lemma check_reset_keep (user : Z) (topic : string) (db : DB) :
  used_count user topic db < total topic db ->
  check_reset user topic db = db.
Proof.
  intros H. unfold check_reset.
  destruct (Z.leb_spec (total topic db) (used_count user topic db)); [lia|reflexivity].
Qed.

(** With the INSERTs of the first request carried out, as [get_questions]
    gives them back: when the cycle is not complete after a request, the
    next request of the same user for the topic returns no question that
    the first one returned. *)
Theorem no_repeat_in_cycle (user : Z) (topic : string) (c1 c2 : option string)
        (db : DB) (qs1 qs2 : list Question) :
  used_count user topic (snd (get_questions user topic c1 db))
  < total topic (snd (get_questions user topic c1 db)) ->
  fst (get_questions user topic c1 db) = Ok qs1 ->
  fst (get_questions user topic c2 (snd (get_questions user topic c1 db))) = Ok qs2 ->
  forall q1 q2, In q1 qs1 -> In q2 qs2 -> q_id q1 <> q_id q2.
Proof.
  intros Hopen H1 H2 q1 q2 Hq1 Hq2 E.
  set (db1 := snd (get_questions user topic c1 db)) in *.
  assert (In (mkUsage user (q_id q1)) (question_usage db1)) as Hrow.
  { subst db1. rewrite get_questions_cases in H1 |- *.
    destruct (limit_param (parse_count c1)) as [n|]; [|discriminate H1].
    cbn [fst snd] in *. injection H1 as <-.
    rewrite draw_usage. apply in_or_app. right.
    apply in_map_iff. now exists q1. }
  rewrite get_questions_cases in H2.
  destruct (limit_param (parse_count c2)) as [n|]; [|discriminate H2].
  cbn [fst] in H2. injection H2 as <-.
  rewrite (check_reset_keep _ _ _ Hopen) in Hq2.
  apply draw_In, filter_In in Hq2 as [_ Hp].
  apply andb_true_iff in Hp as [_ Hu]. apply negb_true_iff in Hu.
  assert (is_used user db1 q2 = true) as Hu'; [|congruence].
  apply is_used_iff. exists (mkUsage user (q_id q1)). now repeat split.
Qed.

Lemma check_reset_other_users (user other : Z) (topic : string) (db : DB) :
  other <> user ->
  filter (fun qu => user_id qu =? other) (question_usage (check_reset user topic db))
  = filter (fun qu => user_id qu =? other) (question_usage db).
Proof.
  intros Hne. unfold check_reset.
  destruct (total topic db <=? used_count user topic db); [|reflexivity].
  apply filter_through. intros qu _ Hu. apply Z.eqb_eq in Hu.
  unfold in_reset_scope.
  destruct (Z.eqb_spec (user_id qu) user); [congruence|reflexivity].
Qed.

Lemma check_reset_other_topics (user : Z) (topic topic' : string) (db : DB) :
  catalog_key db -> topic' <> topic ->
  filter (in_reset_scope user topic' db) (question_usage (check_reset user topic db))
  = filter (in_reset_scope user topic' db) (question_usage db).
Proof.
  intros Hk Hne. unfold check_reset.
  destruct (total topic db <=? used_count user topic db); [|reflexivity].
  apply filter_through. intros qu _ Hs.
  now rewrite (scope_one_topic user topic topic' db qu Hk Hne Hs).
Qed.

(** X4. The frame of a question request: whatever the count and whether or
    not the request fails, it changes neither the catalog nor the attempts;
    the usage rows of every other user are what they were, and so are the
    requesting user's rows for the questions of every other topic. *)
Theorem get_questions_frame (user : Z) (topic : string) (count : option string)
        (db : DB) :
  catalog_key db ->
  questions (snd (get_questions user topic count db)) = questions db
  /\ interview_attempts (snd (get_questions user topic count db))
     = interview_attempts db
  /\ (forall other, other <> user ->
        filter (fun qu => user_id qu =? other)
               (question_usage (snd (get_questions user topic count db)))
        = filter (fun qu => user_id qu =? other) (question_usage db))
  /\ (forall topic', topic' <> topic ->
        filter (in_reset_scope user topic' db)
               (question_usage (snd (get_questions user topic count db)))
        = filter (in_reset_scope user topic' db) (question_usage db)).
Proof.
  intros Hk. split; [apply get_questions_questions|]. split; [|split].
  - rewrite get_questions_cases. unfold check_reset.
    now destruct (limit_param (parse_count count)),
                 (total topic db <=? used_count user topic db).
  - intros other Hne. now apply get_questions_other_users.
  - intros topic' Hne. rewrite get_questions_cases.
    destruct (limit_param (parse_count count)) as [n|]; cbn [snd];
      [|now apply check_reset_other_topics].
    rewrite draw_usage, filter_app, (check_reset_other_topics _ _ _ _ Hk Hne).
    assert (forall q, In q (fst (getRandomQuestions user topic n
                                   (check_reset user topic db))) ->
                      In q (catalog topic db)) as Hin.
    { intros q Hq. apply draw_In, filter_In in Hq as [Hq Hp].
      rewrite check_reset_questions in Hq.
      apply andb_true_iff in Hp as [Ht _]. apply String.eqb_eq in Ht.
      now apply in_catalog. }
    induction (fst (getRandomQuestions user topic n (check_reset user topic db)))
      as [|d l IH]; cbn [map filter]; [now rewrite app_nil_r|].
    assert (in_reset_scope user topic' db (mkUsage user (q_id d)) = false) as Hs.
    { apply (scope_one_topic user topic' topic db _ Hk); [congruence|].
      apply in_reset_scope_iff. split; [reflexivity|].
      exists d. split; [|reflexivity]. apply Hin. now left. }
    rewrite Hs. apply IH. intros q Hq. apply Hin. now right.
Qed.

Lemma used_count_nonneg (user : Z) (topic : string) (db : DB) :
  0 <= used_count user topic db.
Proof. unfold used_count. lia. Qed.

(** X5. A failed draw is not undone: when the count gives no usable limit,
    the answer is the database error; yet on a complete cycle the reset has
    been carried out, the user's usage count for the topic is 0 afterwards,
    so the progress of the cycle is lost; on an open cycle the database is
    unchanged. *)
Theorem failed_draw_keeps_reset (user : Z) (topic : string) (count : option string)
        (db : DB) :
  catalog_key db ->
  limit_param (parse_count count) = None ->
  fst (get_questions user topic count db) = Err 500 "Database error"
  /\ (total topic db <= used_count user topic db ->
      question_usage (snd (get_questions user topic count db))
      = filter (fun qu => negb (in_reset_scope user topic db qu)) (question_usage db)
      /\ used_count user topic (snd (get_questions user topic count db)) = 0)
  /\ (used_count user topic db < total topic db ->
      snd (get_questions user topic count db) = db).
Proof.
  intros Hk Hc. rewrite get_questions_cases, Hc. cbn [fst snd].
  split; [reflexivity|]. split.
  - intros Hex. rewrite (check_reset_exhausted _ _ _ Hex).
    split; [reflexivity|].
    apply (used_count_fresh user topic (reset_usage user topic db)).
    + exact Hk.
    + apply reset_fresh.
  - intros Hopen. now apply check_reset_keep.
Qed.

(** X6. A negative count is no bound: the request returns every question
    that is left in the cycle (all of the topic's questions when the cycle
    was complete), and the cycle is complete afterwards. *)
Theorem negative_count_draws_all (user : Z) (topic : string)
        (count : option string) (n : Z) (db : DB) :
  catalog_key db ->
  limit_param (parse_count count) = Some n ->
  n < 0 ->
  exists qs,
    fst (get_questions user topic count db) = Ok qs
    /\ Permutation qs (eligible user topic (check_reset user topic db))
    /\ eligible user topic (snd (get_questions user topic count db)) = []
    /\ used_count user topic (snd (get_questions user topic count db))
       = total topic db.
Proof.
  intros Hk Hc Hn. rewrite get_questions_cases, Hc. cbn [fst snd].
  set (db1 := check_reset user topic db).
  assert (fst (getRandomQuestions user topic n db1)
          = order_by_random (random db1) (eligible user topic db1)) as Ed.
  { simpl. unfold limit. destruct (Z.ltb_spec n 0); [reflexivity|lia]. }
  exists (fst (getRandomQuestions user topic n db1)).
  split; [reflexivity|].
  assert (Permutation (fst (getRandomQuestions user topic n db1))
                      (eligible user topic db1)) as HP.
  { rewrite Ed. apply order_by_random_perm. }
  split; [exact HP|].
  assert (eligible user topic (snd (getRandomQuestions user topic n db1)) = []) as He.
  { rewrite draw_eligible.
    destruct (filter _ (eligible user topic db1)) as [|q l] eqn:Ef; [reflexivity|].
    exfalso.
    assert (In q (q :: l)) as Hq by now left.
    rewrite <- Ef in Hq. apply filter_In in Hq as [Hq Hx].
    apply negb_true_iff in Hx.
    assert (existsb (fun d => q_id q =? q_id d)
                    (fst (getRandomQuestions user topic n db1)) = true) as Hy;
      [|congruence].
    apply existsb_exists. exists q. split; [|apply Z.eqb_refl].
    apply (Permutation_in _ (Permutation_sym HP) Hq). }
  split; [exact He|].
  assert (catalog_key (snd (getRandomQuestions user topic n db1))) as Hk'.
  { unfold catalog_key. rewrite draw_questions. subst db1.
    now rewrite check_reset_questions. }
  pose proof (total_split user topic _ Hk') as Hs. rewrite He in Hs.
  cbn [length] in Hs.
  assert (total topic (snd (getRandomQuestions user topic n db1)) = total topic db)
    as Et.
  { unfold total, catalog. rewrite draw_questions. subst db1.
    now rewrite check_reset_questions. }
  lia.
Qed.

(** ** Cycle after cycle *)







(** ** More on attempts *)

Lemma next_rowid_above (rows : list Attempt) (a : Attempt) :
  In a rows -> a_id a < next_rowid rows.
Proof.
  unfold next_rowid. induction rows as [|x l IH]; simpl; [contradiction|].
  intros [->|H]; [lia|]. specialize (IH H). lia.
Qed.

(** X8. The id of a saved attempt: a successful submission answers with an
    id that is larger than the id of every attempt stored before, and it is
    the id of the row stored for the submitting user; so the ids of the
    attempts stay distinct. *)
Theorem saved_id_fresh (user : Z) (b : AttemptBody) (now : Z) (db : DB)
        (saved : Saved) :
  fst (post_attempts user b now db) = Ok saved ->
  (forall a, In a (interview_attempts db) -> a_id a < id saved)
  /\ (exists row,
        interview_attempts (snd (post_attempts user b now db))
        = interview_attempts db ++ [row]
        /\ a_id row = id saved /\ a_user_id row = user /\ attempt_date row = now)
  /\ (NoDup (map a_id (interview_attempts db)) ->
      NoDup (map a_id (interview_attempts (snd (post_attempts user b now db))))).
Proof.
  unfold post_attempts. destruct (missing_required b); [discriminate|].
  cbn [fst snd interview_attempts]. intros H. injection H as <-.
  cbn [id]. split; [|split].
  - intros a Ha. now apply next_rowid_above.
  - exists (attempt_row user b now db). now repeat split.
  - intros Hn. rewrite map_app. apply NoDup_app; [exact Hn | repeat constructor; simpl; tauto |].
    intros i Hi [<-|[]]. apply in_map_iff in Hi as (a & Ea & Ha).
    apply next_rowid_above in Ha. simpl in Ea. lia.
Qed.

Lemma attempts_of_post (user : Z) (b : AttemptBody) (now : Z) (db : DB) :
  missing_required b = false ->
  attempts_of user (snd (post_attempts user b now db))
  = attempts_of user db ++ [attempt_row user b now db].
Proof.
  intros H. unfold post_attempts. rewrite H. unfold attempts_of.
  cbn [snd interview_attempts]. rewrite filter_app. simpl.
  now rewrite Z.eqb_refl.
Qed.

(** X9. Submit, then list: after a successful submission the user's listing
    holds the new attempt, with the values that were sent, and is one longer
    than before, and the overall count of the user's analytics is one more;
    after a rejected submission the listing is what it was. *)
Theorem submit_then_list (text_to_real : string -> Q) (user : Z)
        (b : AttemptBody) (now : Z) (db : DB) :
  (forall saved,
     fst (post_attempts user b now db) = Ok saved ->
     (exists row,
        In row (attempts_listing user (snd (post_attempts user b now db)))
        /\ a_id row = id saved
        /\ a_topic row = bind (topic b)
        /\ score row = bind (b_score b)
        /\ total_questions row = bind (totalQuestions b)
        /\ correct_answers row = bind (correctAnswers b)
        /\ duration_minutes row = bind (durationMinutes b)
        /\ confidence_score row = bind (confidenceScore b)
        /\ facial_expression_score row = bind (facialExpressionScore b))
     /\ length (attempts_listing user (snd (post_attempts user b now db)))
        = S (length (attempts_listing user db))
     /\ total_attempts
          (overall (analytics_of text_to_real user (snd (post_attempts user b now db))))
        = total_attempts (overall (analytics_of text_to_real user db)) + 1)
  /\ (forall status msg,
        fst (post_attempts user b now db) = Err status msg ->
        attempts_listing user (snd (post_attempts user b now db))
        = attempts_listing user db).
Proof.
  split.
  - intros saved H.
    assert (missing_required b = false) as Hm.
    { unfold post_attempts in H. destruct (missing_required b);
        [discriminate|reflexivity]. }
    assert (id saved = a_id (attempt_row user b now db)) as Hid.
    { unfold post_attempts in H. rewrite Hm in H. cbn [fst] in H.
      injection H as <-. reflexivity. }
    split; [|split].
    + exists (attempt_row user b now db). split; [|now repeat split].
      apply listing_In. split; [|reflexivity].
      unfold post_attempts. rewrite Hm. cbn [snd interview_attempts].
      apply in_or_app. right. now left.
    + unfold attempts_listing.
      rewrite !(Permutation_length (order_by_desc_perm _ _)).
      rewrite (attempts_of_post user b now db Hm), length_app. simpl. lia.
    + unfold analytics_of. cbn [overall overall_of total_attempts].
      rewrite (attempts_of_post user b now db Hm), length_app. simpl. lia.
  - intros status msg H. unfold post_attempts in *.
    destruct (missing_required b); [reflexivity|discriminate].
Qed.

(** ** More on analytics *)

Lemma sql_eqb_refl (a : sqlval) : sql_eqb a a = true.
Proof.
  destruct a as [|q|s]; simpl.
  - reflexivity.
  - apply Qeq_bool_iff, Qeq_refl.
  - apply String.eqb_refl.
Qed.

Lemma sql_eqb_sym (a b : sqlval) : sql_eqb a b = true -> sql_eqb b a = true.
Proof.
  destruct a, b; simpl; try discriminate; try reflexivity.
  - intros H. apply Qeq_bool_iff in H. apply Qeq_bool_iff. now symmetry.
  - now rewrite String.eqb_sym.
Qed.

Lemma sql_eqb_trans (a b c : sqlval) :
  sql_eqb a b = true -> sql_eqb b c = true -> sql_eqb a c = true.
Proof.
  destruct a, b, c; simpl; try discriminate; try reflexivity.
  - intros H1 H2. apply Qeq_bool_iff in H1, H2. apply Qeq_bool_iff.
    now rewrite H1.
  - intros H1 H2. apply String.eqb_eq in H1, H2. subst. apply String.eqb_refl.
Qed.

Lemma group_keys_incl (ks : list sqlval) (k : sqlval) :
  In k (group_keys ks) -> In k ks.
Proof.
  induction ks as [|x r IH]; simpl; [tauto|].
  intros [->|H]; [now left|]. right. apply IH.
  now apply filter_In in H as [H _].
Qed.

Lemma group_keys_cover (ks : list sqlval) (x : sqlval) :
  In x ks -> exists k, In k (group_keys ks) /\ sql_eqb k x = true.
Proof.
  induction ks as [|y r IH]; simpl; [tauto|].
  intros [->|H].
  - exists x. split; [now left | apply sql_eqb_refl].
  - destruct (IH H) as (k & Hk & Ek).
    destruct (sql_eqb y k) eqn:Eyk.
    + exists y. split; [now left|]. now apply (sql_eqb_trans y k x).
    + exists k. split; [|exact Ek]. right. apply filter_In. now rewrite Eyk.
Qed.

Lemma group_keys_apart (ks : list sqlval) :
  ForallOrdPairs (fun a b => sql_eqb a b = false) (group_keys ks).
Proof.
  induction ks as [|y r IH]; simpl; [constructor|]. constructor.
  - apply Forall_forall. intros k Hk. apply filter_In in Hk as [_ Hk].
    now apply negb_true_iff in Hk.
  - induction IH as [|a l Ha Hl IHl]; simpl; [constructor|].
    destruct (negb (sql_eqb y a)); [|exact IHl]. constructor; [|exact IHl].
    apply Forall_forall. intros k Hk. apply filter_In in Hk as [Hk _].
    rewrite Forall_forall in Ha. now apply Ha.
Qed.

(** A value falls in one group only. *)
Lemma one_group (keys : list sqlval) (x : sqlval) :
  ForallOrdPairs (fun a b => sql_eqb a b = false) keys ->
  (exists k, In k keys /\ sql_eqb k x = true) ->
  list_sum (map (fun k => if sql_eqb k x then 1%nat else 0%nat) keys) = 1%nat.
Proof.
  induction 1 as [|k l Hk Hl IH]; intros (k0 & Hin & E); [destruct Hin|].
  simpl. destruct (sql_eqb k x) eqn:Ek.
  - assert (list_sum (map (fun k' => if sql_eqb k' x then 1%nat else 0%nat) l)
            = 0%nat) as H0; [|now rewrite H0].
    rewrite Forall_forall in Hk. clear IH Hl Hin.
    induction l as [|y l IHl]; simpl; [reflexivity|].
    destruct (sql_eqb y x) eqn:Ey.
    + assert (sql_eqb k y = true) as Hky.
      { apply (sql_eqb_trans k x y); [exact Ek | now apply sql_eqb_sym]. }
      rewrite (Hk y (or_introl eq_refl)) in Hky. discriminate.
    + apply IHl. intros z Hz. apply Hk. now right.
  - destruct Hin as [->|Hin]; [congruence|].
    simpl. apply IH. now exists k0.
Qed.

Lemma group_sizes (keys : list sqlval) (rows : list Attempt) :
  ForallOrdPairs (fun a b => sql_eqb a b = false) keys ->
  (forall a, In a rows -> exists k, In k keys /\ sql_eqb k (a_topic a) = true) ->
  list_sum (map (fun k => length (filter (fun a => sql_eqb k (a_topic a)) rows)) keys)
  = length rows.
Proof.
  intros Hp. induction rows as [|a rows IH]; intros Hc.
  - clear. induction keys as [|k l IHl]; simpl; [reflexivity | exact IHl].
  - assert (list_sum (map (fun k => length (filter (fun a0 => sql_eqb k (a_topic a0))
                                                    (a :: rows))) keys)
            = (list_sum (map (fun k => if sql_eqb k (a_topic a) then 1%nat else 0%nat) keys)
               + list_sum (map (fun k => length (filter (fun a0 => sql_eqb k (a_topic a0))
                                                         rows)) keys))%nat) as E.
    { clear. induction keys as [|k l IHl]; [reflexivity|].
      cbn [map list_sum fold_right]. unfold list_sum in IHl. rewrite IHl.
      cbn [filter]. destruct (sql_eqb k (a_topic a)); cbn [length]; lia. }
    rewrite E, IH, one_group; [reflexivity | exact Hp | |].
    + apply Hc. now left.
    + intros x Hx. apply Hc. now right.
Qed.

(** X10. The three components of the analytics agree: the per-topic counts
    add up to the overall count, every topic row counts at least one
    attempt, no two topic rows have the same topic, and the recent trend has
    [min(20, overall count)] entries. *)
Theorem analytics_consistent (text_to_real : string -> Q) (user : Z) (db : DB) :
  fold_right Z.add 0 (map ts_attempts (topicStats (analytics_of text_to_real user db)))
  = total_attempts (overall (analytics_of text_to_real user db))
  /\ Forall (fun ts => 1 <= ts_attempts ts)
            (topicStats (analytics_of text_to_real user db))
  /\ ForallOrdPairs (fun a b => sql_eqb a b = false)
                    (map ts_topic (topicStats (analytics_of text_to_real user db)))
  /\ Z.of_nat (length (recentAttempts (analytics_of text_to_real user db)))
     = Z.min 20 (total_attempts (overall (analytics_of text_to_real user db))).
Proof.
  unfold analytics_of.
  cbn [topicStats overall recentAttempts overall_of total_attempts].
  set (rows := attempts_of user db). unfold topic_stats_of.
  split; [|split; [|split]].
  - rewrite <- (group_sizes (group_keys (map a_topic rows)) rows).
    + induction (group_keys (map a_topic rows)) as [|k l IH]; simpl; [reflexivity|].
      rewrite IH. lia.
    + apply group_keys_apart.
    + intros a Ha. apply group_keys_cover. now apply in_map.
  - apply Forall_forall. intros ts Hts.
    apply in_map_iff in Hts as (k & <- & Hk). simpl.
    apply group_keys_incl, in_map_iff in Hk as (a & <- & Ha).
    assert (In a (filter (fun a0 => sql_eqb (a_topic a) (a_topic a0)) rows)) as Hin.
    { apply filter_In. split; [exact Ha | apply sql_eqb_refl]. }
    destruct (filter _ rows); [destruct Hin | cbn [length]; lia].
  - rewrite map_map. simpl. rewrite map_id. apply group_keys_apart.
  - unfold recent_attempts_of. rewrite length_map, limit_length by lia.
    rewrite (Permutation_length (order_by_desc_perm _ _)). lia.
Qed.

Lemma sql_max_numbers (vs : list Q) :
  forall m0,
  exists m,
    fold_left (fun m v => if is_null v then m else if sql_ltb m v then v else m)
              (map SNum vs) (SNum m0) = SNum m
    /\ (m0 <= m)%Q
    /\ (forall q, In q vs -> (q <= m)%Q)
    /\ (m = m0 \/ In m vs).
Proof.
  induction vs as [|v vs IH]; intros m0; simpl.
  - exists m0. repeat split; [apply Qle_refl | tauto | now left].
  - destruct (Qle_bool v m0) eqn:E; simpl.
    + apply Qle_bool_iff in E.
      destruct (IH m0) as (m & Hf & H0 & Hall & Hin).
      exists m. repeat split; try assumption.
      * intros q [<-|Hq]; [now apply (Qle_trans _ m0) | now apply Hall].
      * destruct Hin; [now left | right; now right].
    + assert (m0 <= v)%Q as Hle.
      { destruct (Qlt_le_dec m0 v) as [H|H]; [now apply Qlt_le_weak|].
        apply Qle_bool_iff in H. congruence. }
      destruct (IH v) as (m & Hf & H0 & Hall & Hin).
      exists m. repeat split; try assumption.
      * now apply (Qle_trans _ v).
      * intros q [<-|Hq]; [assumption | now apply Hall].
      * right. destruct Hin as [->|Hin]; [now left | now right].
Qed.

Lemma sql_min_numbers (vs : list Q) :
  forall m0,
  exists m,
    fold_left (fun m v => if is_null v then m
                          else if is_null m then v
                          else if sql_ltb v m then v else m)
              (map SNum vs) (SNum m0) = SNum m
    /\ (m <= m0)%Q
    /\ (forall q, In q vs -> (m <= q)%Q)
    /\ (m = m0 \/ In m vs).
Proof.
  induction vs as [|v vs IH]; intros m0; simpl.
  - exists m0. repeat split; [apply Qle_refl | tauto | now left].
  - destruct (Qle_bool m0 v) eqn:E; simpl.
    + apply Qle_bool_iff in E.
      destruct (IH m0) as (m & Hf & H0 & Hall & Hin).
      exists m. repeat split; try assumption.
      * intros q [<-|Hq]; [now apply (Qle_trans _ m0) | now apply Hall].
      * destruct Hin; [now left | right; now right].
    + assert (v <= m0)%Q as Hle.
      { destruct (Qlt_le_dec v m0) as [H|H]; [now apply Qlt_le_weak|].
        apply Qle_bool_iff in H. congruence. }
      destruct (IH v) as (m & Hf & H0 & Hall & Hin).
      exists m. repeat split; try assumption.
      * now apply (Qle_trans _ v).
      * intros q [<-|Hq]; [assumption | now apply Hall].
      * right. destruct Hin as [->|Hin]; [now left | now right].
Qed.

(** X11. Best and worst score: for a user who has an attempt, when the
    stored scores are numbers, the best score is the score of one of the
    user's attempts and no attempt of the user has a larger one; the worst
    score likewise with no smaller one. *)
Theorem best_and_worst (text_to_real : string -> Q) (user : Z) (db : DB)
        (scores : list Q) :
  map score (attempts_of user db) = map SNum scores ->
  scores <> [] ->
  exists best worst,
    best_score (overall (analytics_of text_to_real user db)) = SNum best
    /\ worst_score (overall (analytics_of text_to_real user db)) = SNum worst
    /\ In best scores /\ In worst scores
    /\ (forall q, In q scores -> (worst <= q)%Q /\ (q <= best)%Q).
Proof.
  intros Hs Hne. unfold analytics_of.
  cbn [overall overall_of best_score worst_score]. rewrite Hs.
  destruct scores as [|s0 l]; [congruence|].
  unfold sql_max, sql_min. simpl.
  destruct (sql_max_numbers l s0) as (best & Hb & Hb0 & Hball & Hbin).
  destruct (sql_min_numbers l s0) as (worst & Hw & Hw0 & Hwall & Hwin).
  exists best, worst. rewrite Hb, Hw.
  split; [reflexivity|]. split; [reflexivity|].
  split; [destruct Hbin as [->|H]; [now left | now right]|].
  split; [destruct Hwin as [->|H]; [now left | now right]|].
  intros q [<-|Hq]; split; auto.
Qed.

(** ** Authentication *)

Lemma split_space_word (w : string) :
  no_space w = true -> split_space w = [w].
Proof.
  induction w as [|c r IH]; simpl; [reflexivity|].
  intros H. apply andb_true_iff in H as [Hc Hr].
  apply negb_true_iff in Hc. rewrite Hc, (IH Hr). reflexivity.
Qed.

Lemma split_space_first (w rest : string) :
  no_space w = true ->
  split_space (String.append w (String " " rest)) = w :: split_space rest.
Proof.
  induction w as [|c r IH]; simpl; [reflexivity|].
  intros H. apply andb_true_iff in H as [Hc Hr].
  apply negb_true_iff in Hc. rewrite Hc, (IH Hr). reflexivity.
Qed.

Lemma append_not_empty (w rest : string) :
  (String.append w (String " " rest) =? EmptyString)%string = false.
Proof. now destruct w. Qed.

Lemma header_token_second (scheme tok : string) :
  no_space scheme = true -> no_space tok = true ->
  header_token (Some (String.append scheme (String " " tok))) = Some tok.
Proof.
  intros Hs Ht. unfold header_token.
  rewrite append_not_empty, (split_space_first _ _ Hs), (split_space_word _ Ht).
  reflexivity.
Qed.

Section AuthFacts.

Variable jwt_sign : Claims -> string.
Variable jwt_verify : string -> option Claims.
Variable bcrypt_hash : string -> Z -> string.
Variable bcrypt_compare : string -> string -> bool.
Variable users_insert : list UserRow -> sqlval -> sqlval -> InsertOutcome.

(** X12. What the authentication reads from the header: without a header,
    with a header of one word, or with an empty second word, the answer is
    401 and the token is not verified; otherwise the second word is the
    token, whatever the first word is and whatever follows the second, and
    the answer is 403 when its verification fails and the payload when it
    succeeds. *)
Theorem authenticate_second_word (scheme tok rest : string) :
  no_space scheme = true ->
  no_space tok = true ->
  authenticateToken jwt_verify None = Err 401 "Access token required"
  /\ authenticateToken jwt_verify (Some scheme) = Err 401 "Access token required"
  /\ authenticateToken jwt_verify (Some (String.append scheme " "))
     = Err 401 "Access token required"
  /\ (tok <> EmptyString ->
      authenticateToken jwt_verify (Some (String.append scheme (String " " tok)))
      = match jwt_verify tok with
        | None => Err 403 "Invalid token"
        | Some claims => Ok claims
        end
      /\ authenticateToken jwt_verify
           (Some (String.append scheme
                    (String " " (String.append tok (String " " rest)))))
         = authenticateToken jwt_verify
             (Some (String.append scheme (String " " tok)))).
Proof.
  intros Hs Ht. split; [reflexivity|]. split; [|split].
  - unfold authenticateToken, header_token.
    destruct (String.eqb_spec scheme EmptyString) as [->|_]; [reflexivity|].
    now rewrite (split_space_word _ Hs).
  - unfold authenticateToken.
    rewrite (header_token_second scheme EmptyString Hs eq_refl). reflexivity.
  - intros Hne.
    assert ((tok =? EmptyString)%string = false) as Et by now apply String.eqb_neq.
    split.
    + unfold authenticateToken. rewrite (header_token_second _ _ Hs Ht), Et.
      reflexivity.
    + unfold authenticateToken. rewrite (header_token_second _ _ Hs Ht).
      unfold header_token.
      rewrite append_not_empty, (split_space_first _ _ Hs), (split_space_first _ _ Ht).
      reflexivity.
Qed.

Lemma next_user_id_above (users : list UserRow) (u : UserRow) :
  In u users -> u_id u < next_user_id users.
Proof.
  unfold next_user_id. induction users as [|x l IH]; simpl; [contradiction|].
  intros [->|H]; [lia|]. specialize (IH H). lia.
Qed.

Lemma register_success (username password email : JS.value) (salt now : Z)
      (users : list UserRow) (r : AuthResult) :
  fst (register jwt_sign bcrypt_hash users_insert
                username password email salt now users) = Ok r ->
  exists p,
    password = JS.Str p
    /\ snd (register jwt_sign bcrypt_hash users_insert
                     username password email salt now users)
       = users ++ [mkUser (au_id (auth_user r)) (bind username)
                          (bcrypt_hash p salt) (bind email) now]
    /\ token r = jwt_sign (mkClaims (au_id (auth_user r)) username)
    /\ au_username (auth_user r) = username
    /\ au_email (auth_user r) = email
    /\ (forall u, In u users -> u_id u < au_id (auth_user r)).
Proof.
  unfold register.
  destruct (negb (JS.truthy username) || negb (JS.truthy password));
    [discriminate|].
  destruct password as [| |b|q|p|o]; try discriminate.
  destruct (users_insert users (bind username) (bind email)); try discriminate.
  cbn [fst snd]. intros H. injection H as <-. exists p.
  cbn [auth_user au_id token au_username au_email].
  repeat split. intros u Hu. now apply next_user_id_above.
Qed.

Lemma register_failure (username password email : JS.value) (salt now : Z)
      (users : list UserRow) (status : nat) (error : string) :
  fst (register jwt_sign bcrypt_hash users_insert
                username password email salt now users) = Err status error ->
  snd (register jwt_sign bcrypt_hash users_insert
                username password email salt now users) = users.
Proof.
  unfold register.
  destruct (negb (JS.truthy username) || negb (JS.truthy password));
    [reflexivity|].
  destruct password as [| |b|q|p|o]; try reflexivity.
  destruct (users_insert users (bind username) (bind email));
    [discriminate | reflexivity | reflexivity].
Qed.

(** X13. What a registration stores: a registration that is not answered
    with a token leaves the table of users as it was; one that is answered
    with a token has added one row, with the username and the email that
    were sent, what the hashing made of the password, and an id larger than
    every id before, which is the id in the response and in the token's
    payload; the ids of the users stay distinct. *)
Theorem register_effect (username password email : JS.value) (salt now : Z)
        (users : list UserRow) :
  (forall status error,
     fst (register jwt_sign bcrypt_hash users_insert
                   username password email salt now users) = Err status error ->
     snd (register jwt_sign bcrypt_hash users_insert
                   username password email salt now users) = users)
  /\ (forall r,
        fst (register jwt_sign bcrypt_hash users_insert
                      username password email salt now users) = Ok r ->
        exists p,
          password = JS.Str p
          /\ snd (register jwt_sign bcrypt_hash users_insert
                           username password email salt now users)
             = users ++ [mkUser (au_id (auth_user r)) (bind username)
                                (bcrypt_hash p salt) (bind email) now]
          /\ token r = jwt_sign (mkClaims (au_id (auth_user r)) username)
          /\ au_username (auth_user r) = username
          /\ au_email (auth_user r) = email
          /\ (forall u, In u users -> u_id u < au_id (auth_user r)))
  /\ (NoDup (map u_id users) ->
      NoDup (map u_id (snd (register jwt_sign bcrypt_hash users_insert
                                     username password email salt now users)))).
Proof.
  split; [apply register_failure|]. split; [apply register_success|].
  intros Hn.
  destruct (fst (register jwt_sign bcrypt_hash users_insert
                          username password email salt now users))
    as [r|status error] eqn:E.
  - destruct (register_success _ _ _ _ _ _ r E) as (p & _ & Hs & _ & _ & _ & Hids).
    rewrite Hs, map_app.
    apply NoDup_app; [exact Hn | repeat constructor; simpl; tauto |].
    intros i Hi [<-|[]]. apply in_map_iff in Hi as (u & Eu & Hu).
    apply Hids in Hu. simpl in Eu. lia.
  - now rewrite (register_failure _ _ _ _ _ _ status error E).
Qed.

Lemma bind_truthy_not_null (v : JS.value) :
  JS.truthy v = true -> is_null (bind v) = false.
Proof. now destruct v. Qed.

Lemma find_app_none {A : Type} (f : A -> bool) (l : list A) (x : A) :
  (forall y, In y l -> f y = false) -> f x = true -> find f (l ++ [x]) = Some x.
Proof.
  induction l as [|a l IH]; simpl; intros Hl Hx.
  - now rewrite Hx.
  - rewrite (Hl a (or_introl eq_refl)). apply IH; [|exact Hx].
    intros y Hy. apply Hl. now right.
Qed.

(** X14. Register, then log in: when the hash of the password compares
    with the password, and the table accepted the row because no user had
    the username, a login with the username and the password of a
    successful registration succeeds, for the user id that the registration
    gave. *)
Theorem register_then_login (username password email : JS.value) (salt now : Z)
        (users : list UserRow) (r : AuthResult) :
  (forall p, password = JS.Str p -> bcrypt_compare p (bcrypt_hash p salt) = true) ->
  (users_insert users (bind username) (bind email) = Inserted ->
   forall u, In u users -> sql_where_eqb (u_username u) (bind username) = false) ->
  fst (register jwt_sign bcrypt_hash users_insert
                username password email salt now users) = Ok r ->
  exists r',
    login jwt_sign bcrypt_compare username password
          (snd (register jwt_sign bcrypt_hash users_insert
                         username password email salt now users)) = Ok r'
    /\ au_id (auth_user r') = au_id (auth_user r)
    /\ au_username (auth_user r') = unbind (bind username)
    /\ au_email (auth_user r') = unbind (bind email).
Proof.
  intros compare_hash username_unique.
  unfold register, login.
  destruct (negb (JS.truthy username) || negb (JS.truthy password)) eqn:Ef;
    [discriminate|].
  apply orb_false_iff in Ef as [Hu _]. apply negb_false_iff in Hu.
  destruct password as [| |b|q|p|o]; try discriminate.
  destruct (users_insert users (bind username) (bind email)) eqn:Ei;
    try discriminate.
  cbn [fst snd]. intros H. injection H as <-.
  unfold user_by_name. rewrite find_app_none.
  - cbn [u_password_hash u_id u_username u_email].
    rewrite (compare_hash p eq_refl).
    eexists. split; [reflexivity|]. now repeat split.
  - intros u Hin. now apply username_unique.
  - cbn [u_username]. unfold sql_where_eqb.
    now rewrite (bind_truthy_not_null _ Hu), sql_eqb_refl.
Qed.

(** X15. Register, then ask for the profile: when the token of a successful
    registration is a word without a space that verifies to its payload,
    the token, sent in the header as the client sends it, is accepted, and
    the profile is the one of the new user, with the username and the email
    that were registered. *)
Theorem register_then_profile (username password email : JS.value) (salt now : Z)
        (users : list UserRow) (r : AuthResult) :
  fst (register jwt_sign bcrypt_hash users_insert
                username password email salt now users) = Ok r ->
  jwt_verify (token r) = Some (mkClaims (au_id (auth_user r)) username) ->
  no_space (token r) = true ->
  token r <> EmptyString ->
  authenticateToken jwt_verify
    (authorization_header (setToken (token r) (mkTokenStore None None)))
  = Ok (mkClaims (au_id (auth_user r)) username)
  /\ get_profile jwt_verify
       (authorization_header (setToken (token r) (mkTokenStore None None)))
       (snd (register jwt_sign bcrypt_hash users_insert
                      username password email salt now users))
     = Ok (mkProfile (au_id (auth_user r)) (bind username) (bind email) now).
Proof.
  intros H Hv Hw Hne.
  destruct (register_success username password email salt now users r H)
    as (p & _ & Hs & _ & _ & _ & Hids).
  assert ((token r =? EmptyString)%string = false) as Ee by now apply String.eqb_neq.
  assert (authorization_header (setToken (token r) (mkTokenStore None None))
          = Some (String.append "Bearer" (String " " (token r)))) as Eh.
  { unfold authorization_header, getToken, setToken. cbn [token_field no_token].
    rewrite Ee. cbn [fst]. now rewrite Ee. }
  assert (authenticateToken jwt_verify
            (Some (String.append "Bearer" (String " " (token r))))
          = Ok (mkClaims (au_id (auth_user r)) username)) as Ea.
  { unfold authenticateToken.
    rewrite (header_token_second "Bearer" (token r) eq_refl Hw), Ee.
    now rewrite Hv. }
  rewrite Eh. split; [exact Ea|].
  unfold get_profile. rewrite Ea, Hs. cbn [claim_id].
  rewrite find_app_none; [reflexivity| |apply Z.eqb_refl].
  intros u Hu. apply Hids in Hu. apply Z.eqb_neq. lia.
Qed.

End AuthFacts.

(** ** The client's token *)

Lemma getToken_cached (s : TokenStore) :
  no_token (token_field s) = true \/ token_field s = local_storage s ->
  fst (getToken s) = local_storage s.
Proof.
  unfold getToken. destruct (no_token (token_field s)); cbn [fst]; [reflexivity|].
  now intros [H|H].
Qed.

Lemma getToken_keeps (s : TokenStore) :
  no_token (token_field s) = true \/ token_field s = local_storage s ->
  (no_token (token_field (snd (getToken s))) = true
   \/ token_field (snd (getToken s)) = local_storage (snd (getToken s)))
  /\ local_storage (snd (getToken s)) = local_storage s.
Proof.
  unfold getToken. destruct (no_token (token_field s)) eqn:E; cbn [snd].
  - intros _. split; [now right | reflexivity].
  - intros [H|H]; [discriminate|]. split; [now right | reflexivity].
Qed.

Lemma client_step_keeps (st : ClientStep) (s : TokenStore) :
  no_token (token_field s) = true \/ token_field s = local_storage s ->
  no_token (token_field (client_step st s)) = true
  \/ token_field (client_step st s) = local_storage (client_step st s).
Proof.
  intros H. destruct st as [[t|]| |]; simpl.
  - destruct (t =? EmptyString)%string; [apply getToken_keeps, H | now right].
  - apply getToken_keeps, H.
  - now left.
  - apply getToken_keeps, H.
Qed.

Lemma getToken_twice (s : TokenStore) :
  fst (getToken (snd (getToken s))) = fst (getToken s).
Proof.
  unfold getToken. destruct (no_token (token_field s)) eqn:E; cbn [fst snd].
  - cbn [token_field local_storage]. now destruct (no_token (local_storage s)).
  - now rewrite E.
Qed.

(** X16. The client's token: from a start without a token in memory, after
    any sequence of logins, logouts and requests, the token that
    [getToken] gives is the one in the local storage; after a login that
    returned a token, the requests carry that token as [Bearer]; after a
    logout they carry no [Authorization] header; a login that returned no
    token, and a request, leave the header as it was. *)
Theorem client_token (sts : list ClientStep) (s0 : TokenStore) :
  token_field s0 = None ->
  fst (getToken (client_steps sts s0)) = local_storage (client_steps sts s0)
  /\ (forall t, t <> EmptyString ->
        authorization_header
          (client_step (StepLoggedIn (Some t)) (client_steps sts s0))
        = Some (String.append "Bearer " t))
  /\ authorization_header (client_step StepLogout (client_steps sts s0)) = None
  /\ authorization_header (client_step (StepLoggedIn None) (client_steps sts s0))
     = authorization_header (client_steps sts s0)
  /\ authorization_header (client_step StepRequest (client_steps sts s0))
     = authorization_header (client_steps sts s0).
Proof.
  intros H0. split; [|split; [|split; [|split]]].
  - apply getToken_cached. unfold client_steps.
    assert (no_token (token_field s0) = true \/ token_field s0 = local_storage s0)
      as Hinv by (left; now rewrite H0).
    clear H0. revert s0 Hinv.
    induction sts as [|st sts IH]; intros s0 Hinv; [exact Hinv|].
    simpl. apply IH. now apply client_step_keeps.
  - intros t Hne. apply String.eqb_neq in Hne.
    unfold authorization_header. simpl. rewrite Hne.
    unfold getToken, setToken. cbn [token_field no_token]. rewrite Hne.
    cbn [fst]. now rewrite Hne.
  - reflexivity.
  - unfold authorization_header. simpl. now rewrite getToken_twice.
  - unfold authorization_header. simpl. now rewrite getToken_twice.
Qed.

(** ** The client against the server *)

Section ClientServer.

Variable jwt_verify : string -> option Claims.

(** X17. The client's token at the server: after a logout a request to a
    handler behind the authentication is answered 401 and the handler does
    not run, so the database is what it was; after a login that returned
    the token [t], a word that is not empty, the handler runs for the user
    of [t]'s payload when [t] verifies, and the answer is 403 with the
    database unchanged when it does not. *)
Theorem client_server_token {A : Type} (handler : Z -> DB -> Response A * DB)
        (s : TokenStore) (t : string) (db : DB) :
  no_space t = true ->
  t <> EmptyString ->
  authenticated jwt_verify (authorization_header (client_step StepLogout s)) handler db
  = (Err 401 "Access token required", db)
  /\ authenticated jwt_verify
       (authorization_header (client_step (StepLoggedIn (Some t)) s)) handler db
     = match jwt_verify t with
       | Some claims => handler (claim_id claims) db
       | None => (Err 403 "Invalid token", db)
       end.
Proof.
  intros Hw Hne. split; [reflexivity|].
  assert ((t =? EmptyString)%string = false) as Ee by now apply String.eqb_neq.
  assert (authorization_header (client_step (StepLoggedIn (Some t)) s)
          = Some (String.append "Bearer" (String " " t))) as Eh.
  { unfold authorization_header. simpl. rewrite Ee.
    unfold getToken, setToken. cbn [token_field no_token]. rewrite Ee.
    cbn [fst]. now rewrite Ee. }
  unfold authenticated, authenticateToken.
  rewrite Eh, (header_token_second "Bearer" t eq_refl Hw), Ee.
  now destruct (jwt_verify t).
Qed.

Lemma session_missing (s : Session) :
  missing_required (session_attempt s)
  = (s_topic s =? EmptyString)%string || (s_questions s =? 0)%nat.
Proof.
  unfold missing_required, session_attempt.
  cbn [topic b_score totalQuestions correctAnswers JS.truthy].
  rewrite !negb_involutive.
  assert (JS.is_undefined (json_number (s_averageScore s)) = false) as E1.
  { unfold json_number. now destruct (Q_of_float (s_averageScore s)). }
  assert (forall f, JS.is_undefined (json_round f) = false) as E2.
  { intros f. unfold json_round. now destruct (Q_of_float f). }
  rewrite E1, E2, !orb_false_r. f_equal.
  destruct (s_questions s) as [|n]; [reflexivity|].
  unfold Qeq_bool. simpl. reflexivity.
Qed.

(** X18. Saving a session: with an accepted token, the report of a session
    is stored exactly when the session has a question and its topic is not
    the empty string, whatever its scores and times are; it is then stored
    for the user of the token, with the topic and the number of questions
    of the session and without a confidence or facial expression score. A
    session without a question is answered 400 and nothing is stored. *)
Theorem save_session (store : TokenStore) (s : Session) (now : Z) (db : DB)
        (claims : Claims) :
  authenticateToken jwt_verify (authorization_header store) = Ok claims ->
  (s_questions s = 0%nat \/ s_topic s = EmptyString ->
   saveInterviewSession jwt_verify store s now db
   = (Err 400 "Missing required fields", db))
  /\ (s_questions s <> 0%nat -> s_topic s <> EmptyString ->
      exists row,
        fst (saveInterviewSession jwt_verify store s now db)
        = Ok (mkSaved (a_id row) "Attempt saved successfully")
        /\ interview_attempts (snd (saveInterviewSession jwt_verify store s now db))
           = interview_attempts db ++ [row]
        /\ a_user_id row = claim_id claims
        /\ a_topic row = SText (s_topic s)
        /\ total_questions row = SNum (inject_Z (Z.of_nat (s_questions s)))
        /\ confidence_score row = SNull
        /\ facial_expression_score row = SNull).
Proof.
  intros Ha. unfold saveInterviewSession, authenticated. rewrite Ha.
  unfold post_attempts. rewrite session_missing. split.
  - intros [H|H]; rewrite H; [now rewrite orb_true_r | reflexivity].
  - intros Hq Ht.
    apply String.eqb_neq in Ht. apply Nat.eqb_neq in Hq. rewrite Ht, Hq.
    cbn [orb fst snd interview_attempts].
    exists (attempt_row (claim_id claims) (session_attempt s) now db).
    now repeat split.
Qed.

End ClientServer.

(** ** The screens of the application *)

Lemma app_handle_keeps (e : AppEvent) (s : AppState) :
  (currentScreen s = ScreenInterview -> selectedTopic s <> None) ->
  currentScreen (app_handle e s) = ScreenInterview ->
  selectedTopic (app_handle e s) <> None.
Proof.
  intros Hinv. destruct e as [t|r| | |]; simpl; try discriminate.
  destruct (selectedTopic s) as [t|] eqn:Et; simpl.
  - intros _. congruence.
  - intros Hs. apply Hinv in Hs. congruence.
Qed.

(** X19. The interview screen always has its topic: after any sequence of
    handler calls from the initial state, when the current screen is the
    interview a topic is selected, so the interview is what is rendered,
    for that topic, and not the topic selection. *)
Theorem interview_has_topic (events : list AppEvent) :
  currentScreen (fold_left (fun s e => app_handle e s) events app_initial)
  = ScreenInterview ->
  exists t,
    selectedTopic (fold_left (fun s e => app_handle e s) events app_initial) = Some t
    /\ app_view (fold_left (fun s e => app_handle e s) events app_initial)
       = ViewInterview t.
Proof.
  assert (forall s,
             (currentScreen s = ScreenInterview -> selectedTopic s <> None) ->
             currentScreen (fold_left (fun s e => app_handle e s) events s)
             = ScreenInterview ->
             selectedTopic (fold_left (fun s e => app_handle e s) events s) <> None)
    as Hall.
  { induction events as [|e events IH]; intros s Hinv; [exact Hinv|].
    simpl. apply IH. now apply app_handle_keeps. }
  intros Hs.
  assert (selectedTopic (fold_left (fun s e => app_handle e s) events app_initial)
          <> None) as Hne.
  { apply Hall; [discriminate | exact Hs]. }
  unfold app_view. rewrite Hs.
  destruct (selectedTopic (fold_left (fun s e => app_handle e s) events app_initial))
    as [t|]; [now exists t | congruence].
Qed.

(** ** The fallback analysis *)

(** X20. The fallback score: it is 3 for an answer of fewer than 50
    characters, 5 up to 200 characters, 6 up to 500 and 7 beyond; so it is
    never below 3 or above 7, and a longer answer never scores lower. *)
Theorem fallback_score (answer : string) :
  an_score (getFallbackAnalysis answer)
  = (if (String.length answer <? 50)%nat then 3
     else if (String.length answer <=? 200)%nat then 5
     else if (String.length answer <=? 500)%nat then 6 else 7)
  /\ 3 <= an_score (getFallbackAnalysis answer) <= 7
  /\ (forall other,
        (String.length answer <= String.length other)%nat ->
        an_score (getFallbackAnalysis answer)
        <= an_score (getFallbackAnalysis other)).
Proof.
  assert (forall a,
             an_score (getFallbackAnalysis a)
             = (if (String.length a <? 50)%nat then 3
                else if (String.length a <=? 200)%nat then 5
                else if (String.length a <=? 500)%nat then 6 else 7)) as Hs.
  { intros a. unfold getFallbackAnalysis. cbn [an_score].
    destruct (Nat.ltb_spec (String.length a) 50);
      destruct (Nat.leb_spec (String.length a) 200);
      destruct (Nat.leb_spec (String.length a) 500);
      destruct (Z.ltb_spec 200 (Z.of_nat (String.length a)));
      destruct (Z.ltb_spec 500 (Z.of_nat (String.length a)));
      destruct (Z.ltb_spec (Z.of_nat (String.length a)) 50); lia. }
  split; [apply Hs|]. split.
  - rewrite Hs.
    destruct (String.length answer <? 50)%nat; [lia|].
    destruct (String.length answer <=? 200)%nat; [lia|].
    destruct (String.length answer <=? 500)%nat; lia.
  - intros other Hle. rewrite !Hs.
    destruct (Nat.ltb_spec (String.length answer) 50);
      destruct (Nat.leb_spec (String.length answer) 200);
      destruct (Nat.leb_spec (String.length answer) 500);
      destruct (Nat.ltb_spec (String.length other) 50);
      destruct (Nat.leb_spec (String.length other) 200);
      destruct (Nat.leb_spec (String.length other) 500); lia.
Qed.

(** * The further properties on the sample data *)

Example sample_topics : topic_names Sample.db0 = ["js"; "py"].
Proof. reflexivity. Qed.

Example sample_session_body :
  correctAnswers (session_attempt Fixture.session4) = JS.Num 3
  /\ durationMinutes (session_attempt Fixture.session4) = JS.Num 10.
Proof. split; vm_compute; reflexivity. Qed.

Lemma listed_topic_draw_witness :
  exists q qs, fst (get_questions 7 "js" None Sample.db_full) = Ok (q :: qs).
Proof.
  assert (catalog_key Sample.db_full) as Hk by sample_key.
  assert (5 <> 0) as H5 by discriminate.
  assert (In "js" (topic_names Sample.db_full)) as Hin by (now left).
  exact (proj1 (listed_topic_draw 7 "js" None 5 Sample.db_full Hk eq_refl H5) Hin).
Defined.

Lemma get_questions_frame_witness :
  filter (fun qu => user_id qu =? 8)
         (question_usage (snd (get_questions 7 "js" (Some "2") Sample.db_full)))
  = filter (fun qu => user_id qu =? 8) (question_usage Sample.db_full)
  /\ filter (in_reset_scope 7 "py" Sample.db_full)
            (question_usage (snd (get_questions 7 "js" (Some "2") Sample.db_full)))
     = filter (in_reset_scope 7 "py" Sample.db_full) (question_usage Sample.db_full).
Proof.
  assert (catalog_key Sample.db_full) as Hk by sample_key.
  destruct (get_questions_frame 7 "js" (Some "2") Sample.db_full Hk)
    as (_ & _ & Hu & Ht).
  split; [apply Hu | apply Ht]; discriminate.
Defined.

Lemma failed_draw_keeps_reset_witness :
  fst (get_questions 7 "js" (Some "abc") Sample.db_full) = Err 500 "Database error"
  /\ used_count 7 "js" Sample.db_full = 3
  /\ used_count 7 "js" (snd (get_questions 7 "js" (Some "abc") Sample.db_full)) = 0.
Proof.
  assert (catalog_key Sample.db_full) as Hk by sample_key.
  assert (total "js" Sample.db_full <= used_count 7 "js" Sample.db_full) as Hex by z_le.
  destruct (failed_draw_keeps_reset 7 "js" (Some "abc") Sample.db_full Hk eq_refl)
    as (He & Hr & _).
  split; [exact He|]. split; [reflexivity|]. exact (proj2 (Hr Hex)).
Defined.

Lemma negative_count_draws_all_witness :
  exists qs,
    fst (get_questions 7 "js" (Some "-1") Sample.db_partial) = Ok qs
    /\ Permutation qs (eligible 7 "js" (check_reset 7 "js" Sample.db_partial))
    /\ eligible 7 "js" (snd (get_questions 7 "js" (Some "-1") Sample.db_partial)) = []
    /\ used_count 7 "js" (snd (get_questions 7 "js" (Some "-1") Sample.db_partial))
       = total "js" Sample.db_partial.
Proof.
  assert (catalog_key Sample.db_partial) as Hk by sample_key.
  exact (negative_count_draws_all 7 "js" (Some "-1") (-1) Sample.db_partial
           Hk eq_refl eq_refl).
Defined.


Lemma saved_id_fresh_witness :
  exists row,
    interview_attempts
      (snd (post_attempts 7 Sample.body_none_correct 50
                          (with_attempts Sample.db0 Sample.attempts_of_7)))
    = interview_attempts (with_attempts Sample.db0 Sample.attempts_of_7) ++ [row]
    /\ a_id row = 4 /\ a_user_id row = 7 /\ attempt_date row = 50.
Proof.
  exact (proj1 (proj2 (saved_id_fresh 7 Sample.body_none_correct 50
                         (with_attempts Sample.db0 Sample.attempts_of_7)
                         (mkSaved 4 "Attempt saved successfully") eq_refl))).
Defined.

Lemma best_and_worst_witness :
  exists best worst,
    best_score (overall (analytics_of Sample.no_text 7
                           (with_attempts Sample.db0 Sample.attempts_of_7)))
    = SNum best
    /\ worst_score (overall (analytics_of Sample.no_text 7
                               (with_attempts Sample.db0 Sample.attempts_of_7)))
       = SNum worst
    /\ In best [6%Q; 8%Q] /\ In worst [6%Q; 8%Q]
    /\ (forall q, In q [6%Q; 8%Q] -> (worst <= q)%Q /\ (q <= best)%Q).
Proof.
  assert ([6%Q; 8%Q] <> []) as Hne by discriminate.
  exact (best_and_worst Sample.no_text 7
           (with_attempts Sample.db0 Sample.attempts_of_7) [6%Q; 8%Q] eq_refl Hne).
Defined.

Lemma authenticate_second_word_witness :
  authenticateToken Fixture.verify (Some "Basic tok1") = Ok (mkClaims 1 (JS.Str "ann"))
  /\ authenticateToken Fixture.verify (Some "Basic tok1 more")
     = authenticateToken Fixture.verify (Some "Basic tok1")
  /\ authenticateToken Fixture.verify (Some "Basic") = Err 401 "Access token required".
Proof.
  assert ("tok1" <> EmptyString) as Hne by discriminate.
  destruct (authenticate_second_word Fixture.verify "Basic" "tok1" "more"
              eq_refl eq_refl) as (_ & H1 & _ & H2).
  destruct (H2 Hne) as [Ha Hb].
  split; [exact Ha|]. split; [exact Hb | exact H1].
Defined.

Lemma register_then_login_witness :
  exists r',
    login Fixture.sign Fixture.compare (JS.Str "bob") (JS.Str "secret")
          (snd (register Fixture.sign Fixture.hash Fixture.insert
                         (JS.Str "bob") (JS.Str "secret") JS.Undefined 0 30
                         Fixture.users0)) = Ok r'
    /\ au_id (auth_user r') = 3
    /\ au_username (auth_user r') = JS.Str "bob"
    /\ au_email (auth_user r') = JS.Null.
Proof.
  apply (register_then_login Fixture.sign Fixture.hash Fixture.compare Fixture.insert
           (JS.Str "bob") (JS.Str "secret") JS.Undefined 0 30 Fixture.users0
           Fixture.bob_registered).
  - intros p H. injection H as <-. reflexivity.
  - intros _ u [<-|[<-|[]]]; reflexivity.
  - reflexivity.
Defined.

Lemma register_then_profile_witness :
  get_profile Fixture.verify
    (authorization_header (setToken "tok3" (mkTokenStore None None)))
    (snd (register Fixture.sign Fixture.hash Fixture.insert
                   (JS.Str "bob") (JS.Str "secret") JS.Undefined 0 30 Fixture.users0))
  = Ok (mkProfile 3 (SText "bob") SNull 30).
Proof.
  assert ("tok3" <> EmptyString) as Hne by discriminate.
  exact (proj2 (register_then_profile Fixture.sign Fixture.verify Fixture.hash
                  Fixture.insert (JS.Str "bob") (JS.Str "secret") JS.Undefined 0 30
                  Fixture.users0 Fixture.bob_registered eq_refl eq_refl eq_refl Hne)).
Defined.

Lemma client_token_witness :
  fst (getToken (client_steps [StepLoggedIn (Some "tok1"); StepRequest; StepLogout;
                               StepLoggedIn None]
                              (mkTokenStore None (Some "old"))))
  = local_storage (client_steps [StepLoggedIn (Some "tok1"); StepRequest; StepLogout;
                                 StepLoggedIn None]
                                (mkTokenStore None (Some "old"))).
Proof.
  exact (proj1 (client_token [StepLoggedIn (Some "tok1"); StepRequest; StepLogout;
                              StepLoggedIn None]
                             (mkTokenStore None (Some "old")) eq_refl)).
Defined.

Lemma client_server_token_witness :
  authenticated Fixture.verify
    (authorization_header (client_step StepLogout Fixture.ann_store))
    (fun uid db => get_questions uid "js" None db) Sample.db0
  = (Err 401 "Access token required", Sample.db0)
  /\ authenticated Fixture.verify
       (authorization_header (client_step (StepLoggedIn (Some "tok1"))
                                          (mkTokenStore None None)))
       (fun uid db => get_questions uid "js" None db) Sample.db0
     = get_questions 1 "js" None Sample.db0.
Proof.
  assert ("tok1" <> EmptyString) as Hne by discriminate.
  split.
  - exact (proj1 (client_server_token Fixture.verify
                    (fun uid db => get_questions uid "js" None db)
                    Fixture.ann_store "tok1" Sample.db0 eq_refl Hne)).
  - exact (proj2 (client_server_token Fixture.verify
                    (fun uid db => get_questions uid "js" None db)
                    (mkTokenStore None None) "tok1" Sample.db0 eq_refl Hne)).
Defined.

Lemma save_session_witness :
  exists row,
    fst (saveInterviewSession Fixture.verify Fixture.ann_store Fixture.session4
                              50 Sample.db0)
    = Ok (mkSaved (a_id row) "Attempt saved successfully")
    /\ interview_attempts
         (snd (saveInterviewSession Fixture.verify Fixture.ann_store Fixture.session4
                                    50 Sample.db0))
       = interview_attempts Sample.db0 ++ [row]
    /\ a_user_id row = 1
    /\ a_topic row = SText "js"
    /\ total_questions row = SNum (inject_Z (Z.of_nat 4))
    /\ confidence_score row = SNull
    /\ facial_expression_score row = SNull.
Proof.
  assert (4%nat <> 0%nat) as H4 by discriminate.
  assert ("js" <> EmptyString) as Hne by discriminate.
  exact (proj2 (save_session Fixture.verify Fixture.ann_store Fixture.session4
                  50 Sample.db0 (mkClaims 1 (JS.Str "ann")) eq_refl) H4 Hne).
Defined.

Lemma interview_has_topic_witness :
  exists t,
    selectedTopic (fold_left (fun s e => app_handle e s)
                             [TopicSelect "js"; InterviewComplete (Some "done"); StartNew]
                             app_initial) = Some t
    /\ app_view (fold_left (fun s e => app_handle e s)
                           [TopicSelect "js"; InterviewComplete (Some "done"); StartNew]
                           app_initial) = ViewInterview t.
Proof.
  exact (interview_has_topic
           [TopicSelect "js"; InterviewComplete (Some "done"); StartNew] eq_refl).
Defined.

(** * The queued INSERTs *)

Lemma carry_out_all (k : nat) (s : Queued) :
  (length (queued s) <= k)%nat -> carry_out k s = settle s.
Proof.
  intros H. unfold settle, carry_out.
  now rewrite (firstn_all2 (queued s) H), (skipn_all2 (queued s) H),
    firstn_all, skipn_all.
Qed.

Lemma carry_out_none (k : nat) (s : Queued) :
  queued s = [] -> carry_out k s = s.
Proof.
  destruct s as [[qs us ats rnd] q]. simpl. intros ->. unfold carry_out. simpl.
  now rewrite firstn_nil, skipn_nil, app_nil_r.
Qed.

Lemma settle_queued (s : Queued) : queued (settle s) = [].
Proof. unfold settle, carry_out. simpl. apply skipn_all. Qed.

Lemma settle_stored (db : DB) (rows : list Usage) :
  stored (settle (mkQueued db rows))
  = mkDB (questions db) (question_usage db ++ rows) (interview_attempts db)
         (random db).
Proof.
  unfold settle, carry_out. cbn [stored queued]. now rewrite firstn_all.
Qed.

(** A request that counts after the queued INSERTs have been carried out
    answers as [get_questions] does on the settled database, and once its
    own INSERTs are carried out the database is the one that
    [get_questions] gives back. *)
Lemma queued_request_settled (user : Z) (topic : string) (count : option string)
      (t : Timing) (s : Queued) :
  (length (queued s) <= before_count t)%nat ->
  fst (get_questions_queued user topic count t s)
  = fst (get_questions user topic count (stored (settle s)))
  /\ stored (settle (snd (get_questions_queued user topic count t s)))
     = snd (get_questions user topic count (stored (settle s))).
Proof.
  intros H. unfold get_questions_queued.
  rewrite (carry_out_all _ _ H).
  pose proof (settle_queued s) as Hq.
  rewrite (carry_out_none (before_reset t) (settle s) Hq), Hq.
  rewrite (carry_out_none (before_draw t)) by reflexivity.
  cbn [stored queued]. rewrite get_questions_cases.
  fold (check_reset user topic (stored (settle s))).
  generalize (check_reset user topic (stored (settle s))). intros db1.
  destruct (limit_param (parse_count count)) as [n|]; cbn [fst snd].
  - split; [reflexivity|]. rewrite settle_stored. reflexivity.
  - split; [reflexivity|]. rewrite settle_stored. cbn [questions question_usage
      interview_attempts random]. rewrite app_nil_r. now destruct db1.
Qed.

Lemma same_pair_eq (a b : Usage) : same_pair a b = true -> b = a.
Proof.
  destruct a as [u q], b as [u' q']. unfold same_pair. simpl.
  intros H. apply andb_true_iff in H as [Hu Hq].
  apply Z.eqb_eq in Hu, Hq. now subst.
Qed.

Lemma NoDup_pair_once (l : list Usage) (x : Usage) :
  NoDup l -> (length (filter (same_pair x) l) <= 1)%nat.
Proof.
  induction 1 as [|a l Hn Hd IH]; simpl; [lia|].
  destruct (same_pair x a) eqn:E; [|exact IH].
  apply same_pair_eq in E. subst a.
  assert (filter (same_pair x) l = []) as E0; [|rewrite E0; simpl; lia].
  destruct (filter (same_pair x) l) as [|y r] eqn:Ef; [reflexivity|exfalso].
  assert (In y (filter (same_pair x) l)) as Hy by (rewrite Ef; now left).
  apply filter_In in Hy as [Hy Ey]. apply same_pair_eq in Ey. now subst y.
Qed.

(** C4. Usage pairs stored twice: on a topic of forty questions and an empty
    ledger, which are the conditions of the uniqueness of the pairs, a
    request for thirty questions is answered while its INSERTs are queued,
    and the request for ten that follows counts and draws when twenty-five
    of them have been carried out: five of its ten questions were in the
    first answer, and once all INSERTs are carried out the ledger has forty
    rows in which those five pairs are twice, the pair of question 34 among
    them. *)
Theorem usage_pairs_repeat :
  NoDup (map q_id (questions Bank.db40))
  /\ question_usage Bank.db40 = []
  /\ exists qs1 qs2,
       fst (run_queued Bank.thirty_then_ten (mkQueued Bank.db40 []))
       = [Ok qs1; Ok qs2]
       /\ length qs1 = 30%nat
       /\ length qs2 = 10%nat
       /\ length (filter (fun q => existsb (fun q' => q_id q =? q_id q') qs1) qs2)
          = 5%nat
       /\ length (question_usage
                    (stored (settle (snd (run_queued Bank.thirty_then_ten
                                                     (mkQueued Bank.db40 []))))))
          = 40%nat
       /\ length (nodup Z.eq_dec
                    (map question_id
                       (question_usage
                          (stored (settle (snd (run_queued Bank.thirty_then_ten
                                                           (mkQueued Bank.db40 []))))))))
          = 35%nat
       /\ length (filter (same_pair (mkUsage 7 34))
                    (question_usage
                       (stored (settle (snd (run_queued Bank.thirty_then_ten
                                                        (mkQueued Bank.db40 [])))))))
          = 2%nat
       /\ ~ NoDup (question_usage
                     (stored (settle (snd (run_queued Bank.thirty_then_ten
                                                      (mkQueued Bank.db40 [])))))).
Proof.
  split.
  { assert (nodup Z.eq_dec (map q_id (questions Bank.db40))
            = map q_id (questions Bank.db40)) as E by (vm_compute; reflexivity).
    rewrite <- E. apply NoDup_nodup. }
  split; [reflexivity|].
  assert (length (filter (same_pair (mkUsage 7 34))
                    (question_usage
                       (stored (settle (snd (run_queued Bank.thirty_then_ten
                                                        (mkQueued Bank.db40 [])))))))
          = 2%nat) as Htwice by (vm_compute; reflexivity).
  eexists. eexists. split; [vm_compute; reflexivity|].
  split; [reflexivity|]. split; [reflexivity|].
  split; [vm_compute; reflexivity|]. split; [vm_compute; reflexivity|].
  split; [vm_compute; reflexivity|]. split; [exact Htwice|].
  intros Hn. apply (NoDup_pair_once _ (mkUsage 7 34)) in Hn. lia.
Qed.

(** X3. No repeat while a cycle is open, for requests that wait for the
    INSERTs: when a request counts after the INSERTs queued before it have
    been carried out, and so does the next request of the same user for the
    topic, and the cycle is not complete at that point, the second request
    returns no question that the first one returned. *)
Theorem no_repeat_when_carried_out (user : Z) (topic : string)
        (c1 c2 : option string) (t1 t2 : Timing) (s : Queued)
        (qs1 qs2 : list Question) :
  (length (queued s) <= before_count t1)%nat ->
  (length (queued (snd (get_questions_queued user topic c1 t1 s)))
   <= before_count t2)%nat ->
  used_count user topic
    (stored (settle (snd (get_questions_queued user topic c1 t1 s))))
  < total topic (stored (settle (snd (get_questions_queued user topic c1 t1 s)))) ->
  fst (get_questions_queued user topic c1 t1 s) = Ok qs1 ->
  fst (get_questions_queued user topic c2 t2
         (snd (get_questions_queued user topic c1 t1 s))) = Ok qs2 ->
  forall q1 q2, In q1 qs1 -> In q2 qs2 -> q_id q1 <> q_id q2.
Proof.
  intros H1 H2 Hopen E1 E2.
  destruct (queued_request_settled user topic c1 t1 s H1) as [F1 S1].
  destruct (queued_request_settled user topic c2 t2 _ H2) as [F2 _].
  rewrite F1 in E1. rewrite F2, S1 in E2. rewrite S1 in Hopen.
  exact (no_repeat_in_cycle user topic c1 c2 (stored (settle s)) qs1 qs2
           Hopen E1 E2).
Qed.

Lemma no_repeat_when_carried_out_witness :
  q_id Fixture.q2 <> q_id (mkQuestion 1 "js" "What is a closure?" "beginner").
Proof.
  assert (0 <= 0)%nat as H0 by apply Nat.le_refl.
  assert (2 <= 2)%nat as H2 by apply Nat.le_refl.
  exact (no_repeat_when_carried_out 7 "js" (Some "2") (Some "1")
           (mkTiming 0 0 0) (mkTiming 2 0 0) (mkQueued Sample.db0 [])
           [Fixture.q2; Fixture.q3]
           [mkQuestion 1 "js" "What is a closure?" "beginner"]
           H0 H2 eq_refl eq_refl eq_refl
           Fixture.q2 (mkQuestion 1 "js" "What is a closure?" "beginner")
           (or_introl eq_refl) (or_introl eq_refl)).
Defined.

Example parseInt_nbsp :
  JS.parseInt (String (ascii_of_nat 194) (String (ascii_of_nat 160) "7")) = JS.Int 7.
Proof. reflexivity. Qed.

Example parseInt_line_separator :
  JS.parseInt (String (ascii_of_nat 226)
                 (String (ascii_of_nat 128) (String (ascii_of_nat 168) "12x")))
  = JS.Int 12.
Proof. reflexivity. Qed.

Example sample_thirty_then_ten :
  map question_id
      (skipn 30 (question_usage
                   (stored (settle (snd (run_queued Bank.thirty_then_ten
                                                    (mkQueued Bank.db40 [])))))))
  = [14; 34; 7; 24; 17; 35; 10; 28; 3; 18]
  /\ map question_id
         (firstn 5 (skipn 25 (question_usage
                                (stored (settle (snd (run_queued Bank.thirty_then_ten
                                                                 (mkQueued Bank.db40 []))))))))
     = [34; 3; 10; 17; 24].
Proof. split; vm_compute; reflexivity. Qed.
